(** * k8s-letsencrypt-force-renew: a shallow embedding of [main.go]

    The tool lists the cert-manager [Certificate] resources of a cluster,
    correlates each with the [Secret] that stores its issued material,
    selects the "affected" certificates (optionally filtered by issuer name)
    and, when [--renew] is given, drives each of them through a forced
    re-issuance.

    The embedding follows [main.go] function by function.  The Kubernetes
    API client ([client.Client], a Go interface) is a type class over an
    abstract world; third-party library functions the program calls are the
    fields of a second class.  The program itself runs in a small state
    monad that threads the world, records every client call the program
    issues and collects the log lines it prints. *)

From Stdlib Require Import ZArith List Ascii.
From stdpp Require Import base option list strings gmap fin_maps pretty.

Local Open Scope Z_scope.
Local Open Scope string_scope.

(** ** Go values *)

(** A Go [[]byte]: [None] is the nil slice, [Some bs] a non-nil slice. *)
Abbreviation GoBytes := (option (list Byte.byte)) (only parsing).

(** [len(b)] on a [[]byte]; the nil slice has length 0. *)
Definition go_len (b : GoBytes) : nat :=
  match b with
  | None => 0%nat
  | Some bs => length bs
  end.

(** A Go [map[string]V]: [None] is the nil map.  Reading a nil map yields
    the zero value, ranging over it runs no iteration, writing to it
    panics. *)
Abbreviation GoMap V := (option (gmap string V)) (only parsing).

Definition go_lookup {V : Type} (m : GoMap V) (k : string) : option V :=
  match m with
  | None => None
  | Some g => g !! k
  end.

(** [m[k] = v]; [None] is the run-time panic
    "assignment to entry in nil map". *)
Definition go_store {V : Type} (m : GoMap V) (k : string) (v : V)
  : option (GoMap V) :=
  match m with
  | None => None
  | Some g => Some (Some (<[k := v]> g))
  end.

(** [make(map[string]V)] *)
Definition go_make (V : Type) : GoMap V := Some ∅.

(** Go's [error] values, as far as the program builds or inspects them:
    an error produced by a collaborator, [fmt.Errorf("<prefix>: %w", err)],
    and [wait.ErrWaitTimeout]. *)
Inductive error : Type :=
| Err (msg : string)
| Errorf (prefix : string) (cause : error)
| ErrWaitTimeout.

(** [time.Duration] counts nanoseconds. *)
Definition time_Second : Z := 1000000000.
Definition time_Minute : Z := 60 * time_Second.

(** ** Kubernetes objects (the fields [main.go] reads or writes) *)

Record OwnerReference : Type := mkOwnerReference {
  ref_UID : string;
  ref_Controller : option bool
}.

(** [capi.Certificate] *)
Record Certificate : Type := mkCertificate {
  crt_Namespace : string;
  crt_Name : string;
  crt_UID : string;
  crt_SecretName : string            (* Spec.SecretName *)
}.

(** [core.Secret] *)
Record Secret : Type := mkSecret {
  sec_Namespace : string;
  sec_Name : string;
  sec_Annotations : GoMap string;
  sec_Data : GoMap GoBytes
}.

(** [capi.CertificateRequest] *)
Record CertificateRequest : Type := mkCertificateRequest {
  req_Namespace : string;
  req_Name : string;
  req_OwnerReferences : list OwnerReference;
  req_StatusCertificate : GoBytes    (* Status.Certificate *)
}.

(** [x509.Certificate]; only the serial number is read. *)
Record x509_Certificate : Type := mkX509 {
  SerialNumber : Z
}.

(** The [String] method of [big.Int]: the decimal representation. *)
Definition BigInt_String (z : Z) : string := pretty z.

(** [core.TLSCertKey] and [capi.IssuerNameAnnotationKey] *)
Definition TLSCertKey : string := "tls.crt".
Definition IssuerNameAnnotationKey : string := "cert-manager.io/issuer-name".

(** ** Collaborators *)

(** The command-line flags, package-level variables in [main.go]. *)
Class Flags : Type := mkFlags {
  issuerName : string;
  renew : bool
}.

(** Third-party functions and the Go runtime.  [map_range site m] is the
    order in which the [range] loop at source line [site] visits the map
    [m]: Go leaves it unspecified, but every entry is visited once. *)
Class Library : Type := mkLibrary {
  pki_DecodeX509CertificateBytes : list Byte.byte -> error + x509_Certificate;
  metav1_IsControlledBy : CertificateRequest -> Certificate -> bool;
  map_range : ∀ {V : Type}, nat -> gmap string V -> list (string * V);
  map_range_perm : ∀ (V : Type) (site : nat) (m : gmap string V),
      map_range site m ≡ₚ map_to_list m
}.

(** The cluster as the program reaches it: the operations of
    [client.Client] that [main.go] calls, the two constructors that precede
    them, and the passing of time.  Every operation may change the world,
    since other controllers act on the cluster between two calls. *)
Class Cluster (W : Type) : Type := mkCluster {
  apiutil_NewDynamicRESTMapper : W -> option error * W;
  client_New : W -> option error * W;
  List_Certificates : W -> (error + list Certificate) * W;
  List_Secrets : W -> (error + list Secret) * W;
  List_CertificateRequests : string -> W -> (error + list CertificateRequest) * W;
  Delete_CertificateRequest : CertificateRequest -> W -> option error * W;
  Get_Secret : string -> string -> W -> (error + Secret) * W;
  Update_Secret : Secret -> W -> option error * W;
  time_Sleep : Z -> W -> W
}.

(** The client calls the program issues. *)
Inductive Call : Type :=
| CallListCertificates
| CallListSecrets
| CallListRequests (ns : string)
| CallDelete (req : CertificateRequest)
| CallGet (ns name : string)
| CallUpdate (s : Secret).

(** A call that changes the backing store. *)
Definition is_mutation (c : Call) : bool :=
  match c with
  | CallDelete _ | CallUpdate _ => true
  | _ => false
  end.

Definition is_delete (c : Call) : bool :=
  match c with
  | CallDelete _ => true
  | _ => false
  end.

Definition is_update (c : Call) : bool :=
  match c with
  | CallUpdate _ => true
  | _ => false
  end.

(** One constructor per [log.Printf]/[log.Println] of [main.go], with the
    values it formats. *)
Inductive LogLine : Type :=
| LogIssuerNameSet (filter : string)                 (* line 37 *)
| LogRenewSet                                        (* line 41 *)
| LogWaiting5s                                       (* line 42 *)
| LogBanner                                          (* line 45 *)
| LogFatal (e : error)                               (* line 51 *)
| LogFound (n : nat)                                 (* line 78 *)
| LogChecking (ns name : string)                     (* line 90 *)
| LogSecretNotFound (secretName : string)            (* line 93 *)
| LogNoData (secretName key : string)                (* line 98 *)
| LogDecodeFailed (secretName : string) (e : error)  (* line 105 *)
| LogFinished                                        (* line 127 *)
| LogSkipped (n : nat)                               (* line 128 *)
| LogAffected (n : nat)                              (* line 129 *)
| LogBlank                                           (* lines 135 140 145 148 *)
| LogWillNotRenew                                    (* line 136 *)
| LogWillRenew                                       (* line 141 *)
| LogCandidate (ns name sn : string)                 (* line 143 *)
| LogRenewCount (n : nat)                            (* line 146 *)
| LogTriggering (ns name : string)                   (* line 151 *)
| LogRenewFailed (ns name : string) (e : error)      (* line 153 *)
| LogInProgress (ns name : string)                   (* line 174 *)
| LogDeleteFailed (ns name : string)                 (* line 179 *)
| LogDeleted (ns name : string)                      (* line 183 *)
| LogGetFailed (e : error)                           (* line 189 *)
| LogUpdateFailed (e : error)                        (* line 201 *)
| LogTriggered                                       (* line 205 *)
| LogRequestFound (ns name : string)                 (* line 215 *)
| LogWaitFailed (e : error).                         (* line 222 *)

(** ** The program monad *)

(** The state of a run: the world, the client calls issued so far (oldest
    first) and the lines logged so far (oldest first). *)
Record Proc (W : Type) : Type := mkProc {
  world : W;
  calls : list Call;
  output : list LogLine
}.
Arguments mkProc {W} _ _ _.
Arguments world {W} _.
Arguments calls {W} _.
Arguments output {W} _.

(** A computation either yields a value or panics. *)
Inductive Outcome (A : Type) : Type :=
| Val (a : A)
| Panic (msg : string).
Arguments Val {A} _.
Arguments Panic {A} _.

Definition M (W A : Type) : Type := Proc W -> Outcome A * Proc W.

Definition ret {W A : Type} (a : A) : M W A := fun st => (Val a, st).

Definition bind {W A B : Type} (m : M W A) (k : A -> M W B) : M W B :=
  fun st =>
    match m st with
    | (Val a, st') => k a st'
    | (Panic msg, st') => (Panic msg, st')
    end.

Definition panic {W A : Type} (msg : string) : M W A :=
  fun st => (Panic msg, st).

Declare Scope go_scope.
Delimit Scope go_scope with go.
Notation "'let*' x ':=' m 'in' k" := (bind m (fun x => k))
  (at level 10, x binder, m at level 100, k at level 200) : go_scope.
Notation "m ';;' k" := (bind m (fun _ => k))
  (at level 100, k at level 200, right associativity) : go_scope.

(** [log.Printf] *)
Definition log {W : Type} (l : LogLine) : M W unit :=
  fun st => (Val tt, mkProc (world st) (calls st) (output st ++ [l])).

Definition logs {W : Type} (ls : list LogLine) : M W unit :=
  fun st => (Val tt, mkProc (world st) (calls st) (output st ++ ls)).

(** Lifting of a world operation that the program does not count as a
    client call. *)
Definition lift {W A : Type} (op : W -> A * W) : M W A :=
  fun st =>
    let '(a, w) := op (world st) in
    (Val a, mkProc w (calls st) (output st)).

(** Lifting of a client call: the call is recorded, then served. *)
Definition invoke {W A : Type} (c : Call) (op : W -> A * W) : M W A :=
  fun st =>
    let '(a, w) := op (world st) in
    (Val a, mkProc w (calls st ++ [c]) (output st)).

Definition sleep {W : Type} {cl : Cluster W} (d : Z) : M W unit :=
  fun st => (Val tt, mkProc (time_Sleep d (world st)) (calls st) (output st)).

(** ** [makeSecretsMap] (lines 228-234) *)

Definition secretKey (ns name : string) : string := ns +:+ "/" +:+ name.

(** Kubernetes namespaces are DNS labels: they hold no ['/'], which makes
    the key determine the namespace and the name (lemma [secretKey_inj]). *)
Fixpoint slash_free (s : string) : bool :=
  match s with
  | EmptyString => true
  | String c s' => negb (Ascii.eqb c "/"%char) && slash_free s'
  end.

Definition hasKey (k : string) (s : Secret) : bool :=
  bool_decide (secretKey (sec_Namespace s) (sec_Name s) = k).

Definition makeSecretsMap (secrets : list Secret) : gmap string Secret :=
  fold_left (fun m s => <[secretKey (sec_Namespace s) (sec_Name s) := s]> m)
            secrets ∅.

(** ** The analysis loop of [run] (lines 85-125) *)

(** The variables the loop updates, and the lines it logs. *)
Record Analysis : Type := mkAnalysis {
  serialsToCertificates : gmap string Certificate;
  skipped : nat;      (* a Go int; bounded by len(certs.Items), so it never wraps *)
  logged : list LogLine
}.

Definition say (l : LogLine) (a : Analysis) : Analysis :=
  mkAnalysis (serialsToCertificates a) (skipped a) (logged a ++ [l]).

Definition skip_one (a : Analysis) : Analysis :=
  mkAnalysis (serialsToCertificates a) (S (skipped a)) (logged a).

(** How the loop body leaves lines 91-108 for one certificate: through one
    of the three [continue] statements, or with the secret and the decoded
    certificate in hand. *)
Inductive Resolution : Type :=
| NotFound                                      (* line 95 *)
| NoData                                        (* line 100 *)
| DecodeError (e : error)                       (* line 107 *)
| Decoded (secret : Secret) (cert : x509_Certificate).

(** How a loop or a phase inside a function ends: it runs to completion, or
    the function returns from within it. *)
Inductive Flow : Type :=
| Completed
| Returned (err : option error).

Section Program.
Context {W : Type} {cl : Cluster W} {lib : Library} {flags : Flags}.

Local Open Scope go_scope.

(** Lines 91-108. *)
Definition resolve (secretsMap : gmap string Secret) (crt : Certificate)
  : Resolution :=
  match secretsMap !! secretKey (crt_Namespace crt) (crt_SecretName crt) with
  | None => NotFound
  | Some secret =>
      match sec_Data secret with
      | None => NoData                          (* secret.Data == nil *)
      | Some data =>
          match data !! TLSCertKey with
          | None | Some None => NoData          (* secret.Data[TLSCertKey] == nil *)
          | Some (Some certPEM) =>
              match pki_DecodeX509CertificateBytes certPEM with
              | inl err => DecodeError err
              | inr cert => Decoded secret cert
              end
          end
      end
  end.

(** Lines 112-120, over the entries in the order the [range] visits them.
    [skip] and [skipped] are the two variables the loop writes. *)
Fixpoint filterAnnotations (entries : list (string * string))
         (skip : bool) (skipped : nat) : bool * nat :=
  match entries with
  | [] => (skip, skipped)
  | (key, value) :: rest =>
      if decide (key = "cert-manager.io/issuer-name") then
        if decide (value ≠ issuerName) then
          filterAnnotations rest true (S skipped)
        else filterAnnotations rest skip skipped
      else filterAnnotations rest skip skipped
  end.

(** [for key, value := range secret.Annotations]; a nil map has no
    entries. *)
Definition range_annotations (annotations : GoMap string)
  : list (string * string) :=
  match annotations with
  | None => []
  | Some g => map_range 112 g
  end.

(** The body of the loop, lines 89-124. *)
Definition checkCertificate (secretsMap : gmap string Secret)
           (a : Analysis) (crt : Certificate) : Analysis :=
  let a := say (LogChecking (crt_Namespace crt) (crt_Name crt)) a in
  match resolve secretsMap crt with
  | NotFound =>
      skip_one (say (LogSecretNotFound (crt_SecretName crt)) a)
  | NoData =>
      skip_one (say (LogNoData (crt_SecretName crt) TLSCertKey) a)
  | DecodeError err =>
      skip_one (say (LogDecodeFailed (crt_SecretName crt) err) a)
  | Decoded secret cert =>
      let '(skip, skipped') :=
        if decide (issuerName ≠ "") then
          filterAnnotations (range_annotations (sec_Annotations secret))
                            false (skipped a)
        else (false, skipped a) in
      if negb skip then
        mkAnalysis
          (<[BigInt_String (SerialNumber cert) := crt]> (serialsToCertificates a))
          skipped' (logged a)
      else
        mkAnalysis (serialsToCertificates a) skipped' (logged a)
  end.

(** Lines 85-125. *)
Definition analyse (secretsMap : gmap string Secret)
           (items : list Certificate) : Analysis :=
  fold_left (checkCertificate secretsMap) items (mkAnalysis ∅ 0%nat []).

(** ** [renewCertificate] (lines 160-226) *)

(** CancelStale, the loop of lines 165-184. *)
Fixpoint cancelStale (items : list CertificateRequest) (cert : Certificate)
  : M W Flow :=
  match items with
  | [] => ret Completed
  | req :: rest =>
      if negb (metav1_IsControlledBy req cert) then cancelStale rest cert
      else if Nat.eqb (go_len (req_StatusCertificate req)) 0 then
        log (LogInProgress (req_Namespace req) (req_Name req)) ;;
        ret (Returned None)
      else
        let* err := invoke (CallDelete req) (Delete_CertificateRequest req) in
        match err with
        | Some e =>
            log (LogDeleteFailed (req_Namespace req) (req_Name req)) ;;
            ret (Returned (Some e))
        | None =>
            log (LogDeleted (req_Namespace req) (req_Name req)) ;;
            cancelStale rest cert
        end
  end.

(** Lines 196-199: the in-memory write of the annotation. *)
Definition setIssuerAnnotation (secret : Secret) : option Secret :=
  let annotations :=
    match sec_Annotations secret with
    | None => go_make string
    | Some g => Some g
    end in
  match go_store annotations IssuerNameAnnotationKey "force-renewal-triggered" with
  | None => None
  | Some annotations' =>
      Some (mkSecret (sec_Namespace secret) (sec_Name secret)
                     annotations' (sec_Data secret))
  end.

(** Annotate, lines 186-203; [Completed] leads on to line 205. *)
Definition annotate (cert : Certificate) : M W Flow :=
  let* r := invoke (CallGet (crt_Namespace cert) (crt_SecretName cert))
                   (Get_Secret (crt_Namespace cert) (crt_SecretName cert)) in
  match r with
  | inl err => log (LogGetFailed err) ;; ret (Returned (Some err))
  | inr secret =>
      match setIssuerAnnotation secret with
      | None => panic "assignment to entry in nil map"
      | Some secret' =>
          let* err := invoke (CallUpdate secret') (Update_Secret secret') in
          match err with
          | Some e => log (LogUpdateFailed e) ;; ret (Returned (Some e))
          | None => ret Completed
          end
      end
  end.

(** Lines 213-219: the scan of one poll. *)
Fixpoint findOwned (items : list CertificateRequest) (cert : Certificate)
  : option CertificateRequest :=
  match items with
  | [] => None
  | req :: rest =>
      if metav1_IsControlledBy req cert then Some req
      else findOwned rest cert
  end.

(** The condition function handed to [wait.Poll], lines 207-220. *)
Definition requestExists (cert : Certificate) : M W (bool * option error) :=
  let* r := invoke (CallListRequests (crt_Namespace cert))
                   (List_CertificateRequests (crt_Namespace cert)) in
  match r with
  | inl err => ret (false, Some err)
  | inr items =>
      match findOwned items cert with
      | Some req =>
          log (LogRequestFound (req_Namespace req) (req_Name req)) ;;
          ret (true, None)
      | None => ret (false, None)
      end
  end.

(** Modelled from the spec: [wait.Poll] of k8s.io/apimachinery, which is
    not part of the repository.  The condition is evaluated after each
    whole interval, up to and including the ceiling [timeout]; the first
    evaluation that reports an error ends the wait with that error, the
    first that reports [true] ends it with success, and when the ceiling
    is exhausted the wait ends with [ErrWaitTimeout]. *)
Fixpoint pollLoop (ticks : nat) (interval : Z)
         (condition : M W (bool * option error)) : M W (option error) :=
  match ticks with
  | O => ret (Some ErrWaitTimeout)
  | S ticks' =>
      sleep interval ;;
      let* r := condition in
      match r with
      | (_, Some err) => ret (Some err)
      | (true, None) => ret None
      | (false, None) => pollLoop ticks' interval condition
      end
  end.

Definition wait_Poll (interval timeout : Z)
           (condition : M W (bool * option error)) : M W (option error) :=
  pollLoop (Z.to_nat (timeout / interval)) interval condition.

(** AwaitRequest, lines 205-225. *)
Definition awaitRequest (cert : Certificate) : M W (option error) :=
  log LogTriggered ;;
  let* err := wait_Poll time_Second time_Minute (requestExists cert) in
  match err with
  | Some e => log (LogWaitFailed e) ;; ret (Some e)
  | None => ret None
  end.

Definition renewCertificate (cert : Certificate) : M W (option error) :=
  let* r := invoke (CallListRequests (crt_Namespace cert))
                   (List_CertificateRequests (crt_Namespace cert)) in
  match r with
  | inl err => ret (Some err)
  | inr items =>
      let* f := cancelStale items cert in
      match f with
      | Returned e => ret e
      | Completed =>
          let* f := annotate cert in
          match f with
          | Returned e => ret e
          | Completed => awaitRequest cert
          end
      end
  end.

(** ** [run] (lines 56-158) *)

(** Lines 142-144. *)
Definition listCandidates (entries : list (string * Certificate))
  : list LogLine :=
  map (fun '(sn, cert) => LogCandidate (crt_Namespace cert) (crt_Name cert) sn)
      entries.

(** Lines 150-156, over the entries in the order the [range] visits
    them. *)
Fixpoint renewAll (entries : list (string * Certificate))
  : M W (option error) :=
  match entries with
  | [] => ret None
  | (_, cert) :: rest =>
      log (LogTriggering (crt_Namespace cert) (crt_Name cert)) ;;
      let* err := renewCertificate cert in
      match err with
      | Some e =>
          log (LogRenewFailed (crt_Namespace cert) (crt_Name cert) e) ;;
          ret (Some e)
      | None => renewAll rest
      end
  end.

(** Lines 84-157: what [run] does once both lists are fetched. *)
Definition analyseAndRenew (certs : list Certificate) (secrets : list Secret)
  : M W (option error) :=
  let secretsMap := makeSecretsMap secrets in
  let a := analyse secretsMap certs in
  logs (logged a) ;;
  log LogFinished ;;
  log (LogSkipped (skipped a)) ;;
  log (LogAffected (size (serialsToCertificates a))) ;;
  if Nat.eqb (size (serialsToCertificates a)) 0 then ret None
  else if negb renew then
    log LogBlank ;; log LogWillNotRenew ;; ret None
  else
    log LogBlank ;;
    log LogWillRenew ;;
    logs (listCandidates (map_range 142 (serialsToCertificates a))) ;;
    log LogBlank ;;
    log (LogRenewCount (size (serialsToCertificates a))) ;;
    sleep (time_Second * 2) ;;
    log LogBlank ;;
    renewAll (map_range 150 (serialsToCertificates a)).

(** [run], for a process in which [ctrl.GetConfigOrDie] returns. *)
Definition run : M W (option error) :=
  let* err := lift apiutil_NewDynamicRESTMapper in
  match err with
  | Some e => ret (Some e)
  | None =>
      let* err := lift client_New in
      match err with
      | Some e => ret (Some (Errorf "error building API client" e))
      | None =>
          let* r := invoke CallListCertificates List_Certificates in
          match r with
          | inl e => ret (Some (Errorf "error listing Certificate resources" e))
          | inr certs =>
              log (LogFound (length certs)) ;;
              let* r := invoke CallListSecrets List_Secrets in
              match r with
              | inl e => ret (Some (Errorf "error listing Secret resources" e))
              | inr secrets => analyseAndRenew certs secrets
              end
          end
      end
  end.

(** [main] (lines 33-54); the value is the exit status of the process. *)
Definition main : M W Z :=
  (if decide (issuerName ≠ "") then log (LogIssuerNameSet issuerName)
   else ret tt) ;;
  (if renew then
     log LogRenewSet ;; log LogWaiting5s ;; sleep (time_Second * 5)
   else ret tt) ;;
  log LogBanner ;;
  let* err := run in
  match err with
  | Some e => log (LogFatal e) ;; ret 1
  | None => ret 0
  end.
End Program.

(** ** A scripted cluster

    An in-memory stand-in for the API server and the libraries, on which
    the program can be run on concrete inputs. *)
Module Fake.

(** The store, a clock, the requests the cert-manager controller will
    create (each with the time from which it is listed), the number of
    client calls served, and the calls (by sequence number) scripted to
    fail. *)
Record World : Type := mkWorld {
  certificates : list Certificate;
  secrets : list Secret;
  requests : list CertificateRequest;
  clock : Z;
  arrivals : list (Z * CertificateRequest);
  served : nat;
  failing : list nat
}.

Definition tick (w : World) : World :=
  mkWorld (certificates w) (secrets w) (requests w) (clock w) (arrivals w)
          (S (served w)) (failing w).

(** Serve one call: scripted failures leave the store alone. *)
Definition serve {B : Type} (fail : error -> B) (op : World -> B * World)
           (w : World) : B * World :=
  if bool_decide (served w ∈ failing w)
  then (fail (Err "injected failure"), tick w)
  else op (tick w).

Definition same_request (a b : CertificateRequest) : bool :=
  bool_decide (req_Namespace a = req_Namespace b)
  && bool_decide (req_Name a = req_Name b).

Definition same_secret (ns name : string) (s : Secret) : bool :=
  bool_decide (sec_Namespace s = ns) && bool_decide (sec_Name s = name).

Definition list_requests (ns : string) (w : World)
  : (error + list CertificateRequest) * World :=
  (inr (List.filter (fun r => bool_decide (req_Namespace r = ns)) (requests w)), w).

Definition delete_request (req : CertificateRequest) (w : World)
  : option error * World :=
  if existsb (same_request req) (requests w) then
    (None, mkWorld (certificates w) (secrets w)
                   (List.filter (fun r => negb (same_request req r)) (requests w))
                   (clock w) (arrivals w) (served w) (failing w))
  else (Some (Err "not found"), w).

Definition get_secret (ns name : string) (w : World) : (error + Secret) * World :=
  match List.find (same_secret ns name) (secrets w) with
  | Some s => (inr s, w)
  | None => (inl (Err "not found"), w)
  end.

Definition update_secret (s : Secret) (w : World) : option error * World :=
  if existsb (same_secret (sec_Namespace s) (sec_Name s)) (secrets w) then
    (None, mkWorld (certificates w)
                   (List.map (fun s' => if same_secret (sec_Namespace s) (sec_Name s) s'
                                        then s else s') (secrets w))
                   (requests w) (clock w) (arrivals w) (served w) (failing w))
  else (Some (Err "not found"), w).

(** Time passes; the requests that are due enter the store. *)
Definition advance (d : Z) (w : World) : World :=
  let now := clock w + d in
  mkWorld (certificates w) (secrets w)
          (requests w ++ List.map snd (List.filter (fun a => Z.leb (fst a) now) (arrivals w)))
          now
          (List.filter (fun a => negb (Z.leb (fst a) now)) (arrivals w))
          (served w) (failing w).

#[export] Instance cluster : Cluster World := {|
  apiutil_NewDynamicRESTMapper := fun w => (None, w);
  client_New := fun w => (None, w);
  List_Certificates := serve inl (fun w => (inr (certificates w), w));
  List_Secrets := serve inl (fun w => (inr (secrets w), w));
  List_CertificateRequests := fun ns => serve inl (list_requests ns);
  Delete_CertificateRequest := fun req => serve Some (delete_request req);
  Get_Secret := fun ns name => serve inl (get_secret ns name);
  Update_Secret := fun s => serve Some (update_secret s);
  time_Sleep := advance
|}.

(** A toy certificate encoding: the byte ['C'] followed by one byte that
    holds the serial number.  Anything else is rejected. *)
Definition decode (bs : list Byte.byte) : error + x509_Certificate :=
  match bs with
  | [Byte.x43; b] => inr (mkX509 (Z.of_N (Byte.to_N b)))
  | _ => inl (Err "error decoding cert PEM block")
  end.

(** Ownership through the controller reference, by UID. *)
Definition controlled_by (req : CertificateRequest) (cert : Certificate) : bool :=
  match List.find (fun r => match ref_Controller r with
                            | Some true => true
                            | _ => false
                            end) (req_OwnerReferences req) with
  | Some r => bool_decide (ref_UID r = crt_UID cert)
  | None => false
  end.

#[export] Instance library : Library := {|
  pki_DecodeX509CertificateBytes := decode;
  metav1_IsControlledBy := controlled_by;
  map_range := fun V _ m => map_to_list m;
  map_range_perm := fun V _ m => reflexivity (map_to_list m)
|}.

Definition start (w : World) : Proc World := mkProc w [] [].

(** Sample objects. *)
Definition pem (serial : Byte.byte) : GoBytes := Some [Byte.x43; serial].

Definition tls_secret (ns name : string) (annotations : GoMap string)
           (crt : GoBytes) : Secret :=
  mkSecret ns name annotations (Some {[ TLSCertKey := crt ]}).

Definition issued_by (issuer : string) : GoMap string :=
  Some {[ IssuerNameAnnotationKey := issuer ]}.

Definition web : Certificate := mkCertificate "prod" "web" "uid-web" "web-tls".
Definition api : Certificate := mkCertificate "prod" "api" "uid-api" "api-tls".
Definition db : Certificate := mkCertificate "prod" "db" "uid-db" "db-tls".

Definition owned_by (cert : Certificate) (name : string) (result : GoBytes)
  : CertificateRequest :=
  mkCertificateRequest (crt_Namespace cert) name
                       [mkOwnerReference (crt_UID cert) (Some true)] result.

Definition no_filter : Flags := mkFlags "" false.
Definition no_filter_renew : Flags := mkFlags "" true.
Definition prod_filter : Flags := mkFlags "letsencrypt-prod" false.

Definition idle (certs : list Certificate) (secs : list Secret)
           (reqs : list CertificateRequest) : World :=
  mkWorld certs secs reqs 0 [] 0 [].

(** Three certificates with their secrets, issued by two issuers. *)
Definition web_tls : Secret :=
  tls_secret "prod" "web-tls" (issued_by "letsencrypt-prod") (pem Byte.x07).
Definition api_tls : Secret :=
  tls_secret "prod" "api-tls" (issued_by "letsencrypt-prod") (pem Byte.x09).
Definition db_tls : Secret :=
  tls_secret "prod" "db-tls" (issued_by "letsencrypt-staging") (pem Byte.x0b).

(** A TLS secret that carries no annotation at all. *)
Definition plain_tls : Secret :=
  tls_secret "prod" "web-tls" None (pem Byte.x07).

(** A second declaration, in another namespace, whose secret holds the
    same certificate as [web_tls]. *)
Definition mirror : Certificate :=
  mkCertificate "staging" "web" "uid-mirror" "web-tls".
Definition mirror_tls : Secret :=
  tls_secret "staging" "web-tls" (issued_by "letsencrypt-prod") (pem Byte.x07).

(** A completed and an in-progress request of [web]. *)
Definition web_done : CertificateRequest :=
  owned_by web "web-1" (Some [Byte.x43; Byte.x07]).
Definition web_pending : CertificateRequest := owned_by web "web-2" None.

Definition cluster3 : World := idle [web; api; db] [web_tls; api_tls; db_tls] [].

(** The controller answers the annotation of [web_tls] with a new request
    that is listed from the given time on. *)
Definition answering (at_time : Z) : World :=
  mkWorld [web] [web_tls] [] 0 [(at_time, web_pending)] 0 [].
End Fake.

(** ** Summaries of the analysis loop, used to state its properties *)

Section Summaries.
Context {lib : Library} {flags : Flags}.

(** The net effect of lines 111-121 on a decoded certificate: it stays
    unless the secret carries the issuer-name annotation with a value
    other than the filter (lemma [filter_loop]). *)
Definition passesFilter (secret : Secret) : bool :=
  if decide (issuerName ≠ "") then
    match go_lookup (sec_Annotations secret) "cert-manager.io/issuer-name" with
    | Some value => bool_decide (value = issuerName)
    | None => true
    end
  else true.

(** The key under which one pass of the loop body stores the certificate,
    if it stores it (lemma [checkCertificate_effect]). *)
Definition affectedKey (secretsMap : gmap string Secret) (crt : Certificate)
  : option string :=
  match resolve secretsMap crt with
  | Decoded secret cert =>
      if passesFilter secret then Some (BigInt_String (SerialNumber cert))
      else None
  | _ => None
  end.

(** One pass of the loop body, seen from the map alone. *)
Definition place (secretsMap : gmap string Secret)
           (m : gmap string Certificate) (crt : Certificate)
  : gmap string Certificate :=
  match affectedKey secretsMap crt with
  | Some sn => <[sn := crt]> m
  | None => m
  end.

(** The Correlator's successes: the serial-number string of every
    certificate whose secret resolves and decodes, in list order. *)
Definition decodedSerial (secretsMap : gmap string Secret) (crt : Certificate)
  : option string :=
  match resolve secretsMap crt with
  | Decoded _ cert => Some (BigInt_String (SerialNumber cert))
  | _ => None
  end.

Definition is_skip (r : Resolution) : bool :=
  match r with
  | Decoded _ _ => false
  | _ => true
  end.
End Summaries.

(** The TLS certificate bytes of a secret are absent (no data map, no
    entry, a nil entry) or empty. *)
Definition bytes_absent_or_empty (s : Secret) : Prop :=
  match go_lookup (sec_Data s) TLSCertKey with
  | None | Some None | Some (Some []) => True
  | Some (Some (_ :: _)) => False
  end.

(** The TLS certificate bytes of a secret are present and the decoder
    rejects them. *)
Definition bytes_undecodable {lib : Library} (s : Secret) : Prop :=
  ∃ bs e, go_lookup (sec_Data s) TLSCertKey = Some (Some bs)
          ∧ bs ≠ [] ∧ pki_DecodeX509CertificateBytes bs = inl e.

(** ** Summaries of a renewal, used to state its properties *)

Section Observations.
Context {W : Type} {cl : Cluster W} {lib : Library} {flags : Flags}.

(** What one poll of AwaitRequest meets: one interval passes, then the
    requests of the certificate's namespace are listed. *)
Definition pollOnce (cert : Certificate) (w : W)
  : (error + list CertificateRequest) * W :=
  List_CertificateRequests (crt_Namespace cert) (time_Sleep time_Second w).

(** The world after [n] polls. *)
Fixpoint worldAfterPolls (n : nat) (cert : Certificate) (w : W) : W :=
  match n with
  | O => w
  | S n' => worldAfterPolls n' cert (snd (pollOnce cert w))
  end.

(** What poll number [k + 1], made [k + 1] intervals after the wait
    began, sees: [Some true] when the listing holds a request owned by the
    certificate, [Some false] when it holds none, [None] when the listing
    fails. *)
Definition pollSees (k : nat) (cert : Certificate) (w : W) : option bool :=
  match fst (pollOnce cert (worldAfterPolls k cert w)) with
  | inr items => Some (existsb (fun req => metav1_IsControlledBy req cert) items)
  | inl _ => None
  end.


Definition quietAt (k : nat) (cert : Certificate) (w : W) : Prop :=
  pollSees k cert w = Some false.

(** The state in which [run] enters the renewal loop of lines 150-156,
    given the state [st] in which it started, the two fetched lists and
    the world [w] the second fetch left. *)
Definition renewalStart (st : Proc W) (certs : list Certificate)
           (secrets : list Secret) (w : W) : Proc W :=
  let a := analyse (makeSecretsMap secrets) certs in
  let n := size (serialsToCertificates a) in
  mkProc (time_Sleep (time_Second * 2) w)
         (calls st ++ [CallListCertificates; CallListSecrets])
         (output st
          ++ [LogFound (length certs)] ++ logged a
          ++ [LogFinished; LogSkipped (skipped a); LogAffected n;
              LogBlank; LogWillRenew]
          ++ listCandidates (map_range 142 (serialsToCertificates a))
          ++ [LogBlank; LogRenewCount n; LogBlank])%list.

(** The state in which [run] returns from a dry run or from a run without
    affected certificates. *)
Definition reportOnly (st : Proc W) (certs : list Certificate)
           (secrets : list Secret) (w : W) : Proc W :=
  let a := analyse (makeSecretsMap secrets) certs in
  let n := size (serialsToCertificates a) in
  mkProc w
         (calls st ++ [CallListCertificates; CallListSecrets])
         (output st
          ++ [LogFound (length certs)] ++ logged a
          ++ [LogFinished; LogSkipped (skipped a); LogAffected n]
          ++ (if Nat.eqb n 0 then [] else [LogBlank; LogWillNotRenew]))%list.
End Observations.

(** ** Further vocabulary for the properties of the program *)

Definition secretKeyOf (s : Secret) : string :=
  secretKey (sec_Namespace s) (sec_Name s).

(** The line [run] logs when it starts on a certificate (line 90). *)
Definition checkingLine (crt : Certificate) : LogLine :=
  LogChecking (crt_Namespace crt) (crt_Name crt).

Definition is_checking (l : LogLine) : bool :=
  match l with
  | LogChecking _ _ => true
  | _ => false
  end.

(** The line [run] logs when it starts the renewal of an entry of the
    AffectedSet (line 151). *)
Definition triggeringLine (entry : string * Certificate) : LogLine :=
  LogTriggering (crt_Namespace (snd entry)) (crt_Name (snd entry)).

Definition is_triggering (l : LogLine) : bool :=
  match l with
  | LogTriggering _ _ => true
  | _ => false
  end.

(** The completion marker of a request is set. *)
Definition completed (req : CertificateRequest) : bool :=
  negb (Nat.eqb (go_len (req_StatusCertificate req)) 0).

Section Vocabulary.
Context {W : Type} {cl : Cluster W} {lib : Library} {flags : Flags}.

(** The requests of a listing that the certificate controls, in listing
    order. *)
Definition ownedBy (cert : Certificate) (items : list CertificateRequest)
  : list CertificateRequest :=
  List.filter (fun req => metav1_IsControlledBy req cert) items.

(** The state in which [main] calls [run] (lines 34-48): the warnings and
    the banner are logged and, with [--renew], five seconds have passed. *)
Definition mainStart (st : Proc W) : Proc W :=
  mkProc (if renew then time_Sleep (time_Second * 5) (world st) else world st)
         (calls st)
         (output st
          ++ (if decide (issuerName ≠ "") then [LogIssuerNameSet issuerName] else [])
          ++ (if renew then [LogRenewSet; LogWaiting5s] else [])
          ++ [LogBanner])%list.

(** The deletions CancelStale issues on the requests [reqs], in order, up to
    and including the first that fails: the requests it called Delete on,
    the error of the failed deletion if there is one, and the world the last
    call left. *)
Fixpoint deletions (reqs : list CertificateRequest) (w : W)
  : list CertificateRequest * option error * W :=
  match reqs with
  | [] => ([], None, w)
  | r :: rest =>
      match Delete_CertificateRequest r w with
      | (Some e, w') => ([r], Some e, w')
      | (None, w') =>
          let '(ds, err, w'') := deletions rest w' in (r :: ds, err, w'')
      end
  end.
End Vocabulary.

(** A scripted cluster whose client cannot be built: the two constructors
    answer as given, the rest is the scripted cluster above. *)
Module FakeBoot.
Import Fake.

Definition cluster (mapper client : option error) : Cluster World := {|
  apiutil_NewDynamicRESTMapper := fun w => (mapper, w);
  client_New := fun w => (client, w);
  List_Certificates := serve inl (fun w => (inr (certificates w), w));
  List_Secrets := serve inl (fun w => (inr (secrets w), w));
  List_CertificateRequests := fun ns => serve inl (list_requests ns);
  Delete_CertificateRequest := fun req => serve Some (delete_request req);
  Get_Secret := fun ns name => serve inl (get_secret ns name);
  Update_Secret := fun s => serve Some (update_secret s);
  time_Sleep := advance
|}.
End FakeBoot.

(** * Properties *)

(** ** The secrets map *)

Lemma secretKey_inj (ns1 name1 ns2 name2 : string) :
  slash_free ns1 = true → slash_free ns2 = true →
  secretKey ns1 name1 = secretKey ns2 name2 →
  ns1 = ns2 ∧ name1 = name2.
Proof.
  unfold secretKey. revert ns2.
  induction ns1 as [|c1 ns1 IH]; intros [|c2 ns2] H1 H2 Heq; cbn in *.
  - injection Heq as Heq. by subst.
  - injection Heq as Hc _. subst c2. discriminate H2.
  - injection Heq as Hc _. subst c1. discriminate H1.
  - injection Heq as Hc Heq. subst c2.
    apply andb_true_iff in H1 as [_ H1]. apply andb_true_iff in H2 as [_ H2].
    destruct (IH ns2 H1 H2 Heq) as [-> ->]. done.
Qed.

Lemma makeSecretsMap_fold (secrets : list Secret) (m : gmap string Secret)
      (k : string) :
  fold_left (fun m s => <[secretKey (sec_Namespace s) (sec_Name s) := s]> m)
            secrets m !! k
  = match last (List.filter (hasKey k) secrets) with
    | Some s => Some s
    | None => m !! k
    end.
Proof.
  revert m. induction secrets as [|s secrets IH]; intros m; [done|].
  cbn [fold_left List.filter]. rewrite IH. unfold hasKey at 2.
  case_bool_decide as Hk.
  - destruct (List.filter _ secrets) as [|s' l'] eqn:Hf.
    + cbn. rewrite Hk. apply lookup_insert_eq.
    + rewrite last_cons_cons. destruct (last (s' :: l')) eqn:E; [done|].
      by apply last_None in E.
  - destruct (last _); [done|]. by rewrite lookup_insert_ne.
Qed.

(** A secret found in the map is one of the fetched secrets and is stored
    under its own namespace/name key. *)
Lemma makeSecretsMap_Some (secrets : list Secret) (k : string) (s : Secret) :
  makeSecretsMap secrets !! k = Some s →
  s ∈ secrets ∧ secretKey (sec_Namespace s) (sec_Name s) = k.
Proof.
  unfold makeSecretsMap. rewrite makeSecretsMap_fold.
  destruct (last _) as [s'|] eqn:Hl; [|by rewrite lookup_empty].
  intros [= ->]. apply last_Some in Hl as [l' Hl].
  assert (s ∈ List.filter (hasKey k) secrets) as Hin.
  { rewrite Hl. apply elem_of_app. right. apply list_elem_of_singleton. done. }
  apply list_elem_of_In, filter_In in Hin as [Hin Hk].
  split; [by apply list_elem_of_In | by apply bool_decide_eq_true in Hk].
Qed.

(** The map has no entry for a key exactly when no fetched secret has it. *)
Lemma makeSecretsMap_None (secrets : list Secret) (k : string) :
  makeSecretsMap secrets !! k = None ↔
  ∀ s, s ∈ secrets → secretKey (sec_Namespace s) (sec_Name s) ≠ k.
Proof.
  unfold makeSecretsMap. rewrite makeSecretsMap_fold. split.
  - destruct (last _) eqn:Hl; [done|]. intros _ s Hs Hk.
    apply last_None in Hl.
    assert (In s (List.filter (hasKey k) secrets)) as Hin.
    { apply filter_In. split; [by apply list_elem_of_In | by apply bool_decide_eq_true]. }
    rewrite Hl in Hin. destruct Hin.
  - intros Hno. destruct (last _) as [s|] eqn:Hl; [|by rewrite lookup_empty].
    apply last_Some in Hl as [l' Hl]. exfalso.
    assert (In s (List.filter (hasKey k) secrets)) as Hin.
    { rewrite Hl. apply in_or_app. right. by left. }
    apply filter_In in Hin as [Hin Hk]. apply bool_decide_eq_true in Hk.
    by apply (Hno s); [apply list_elem_of_In|].
Qed.

(** ** The analysis loop *)

Section AnalysisFacts.
Context {lib : Library} {flags : Flags}.

Lemma filterAnnotations_absent (entries : list (string * string)) skip k :
  (∀ v, ("cert-manager.io/issuer-name", v) ∉ entries) →
  filterAnnotations entries skip k = (skip, k).
Proof.
  induction entries as [|[key value] rest IH]; intros Hno; [done|].
  cbn. destruct (decide (key = _)) as [->|Hne].
  - exfalso. apply (Hno value). by left.
  - apply IH. intros v Hv. apply (Hno v). by right.
Qed.

Lemma filterAnnotations_present (entries : list (string * string)) value skip k :
  NoDup (entries.*1) →
  ("cert-manager.io/issuer-name", value) ∈ entries →
  filterAnnotations entries skip k
  = if decide (value ≠ issuerName) then (true, S k) else (skip, k).
Proof.
  induction entries as [|[key v] rest IH]; intros Hnd Hin.
  { by apply elem_of_nil in Hin. }
  cbn in Hnd. apply NoDup_cons in Hnd as [Hfresh Hnd].
  apply elem_of_cons in Hin as [Heq|Hin].
  - injection Heq as <- <-. cbn. rewrite decide_True by done.
    assert (∀ v', ("cert-manager.io/issuer-name", v') ∉ rest) as Hno.
    { intros v' Hv'. apply Hfresh.
      apply list_elem_of_fmap. by exists ("cert-manager.io/issuer-name", v'). }
    destruct (decide (value ≠ issuerName));
      by apply filterAnnotations_absent.
  - cbn. rewrite decide_False; [by apply IH|].
    intros ->. apply Hfresh.
    apply list_elem_of_fmap. by exists ("cert-manager.io/issuer-name", value).
Qed.

(** Lines 111-121 skip the certificate exactly when [passesFilter] is
    false, and then count it once, whatever order the [range] takes. *)
Lemma filter_loop (secret : Secret) (k : nat) :
  (if decide (issuerName ≠ "") then
     filterAnnotations (range_annotations (sec_Annotations secret)) false k
   else (false, k))
  = (negb (passesFilter secret), if passesFilter secret then k else S k).
Proof.
  unfold passesFilter. destruct (decide (issuerName ≠ "")) as [Hset|]; [|done].
  destruct (sec_Annotations secret) as [g|]; [|done]. cbn.
  destruct (g !! "cert-manager.io/issuer-name") as [value|] eqn:Hg.
  - rewrite (filterAnnotations_present _ value).
    + destruct (decide (value ≠ issuerName)) as [Hne|Heq].
      * by rewrite bool_decide_eq_false_2.
      * apply dec_stable in Heq. by rewrite bool_decide_eq_true_2.
    + rewrite (map_range_perm _ 112 g). apply NoDup_fst_map_to_list.
    + rewrite (map_range_perm _ 112 g). by apply elem_of_map_to_list.
  - apply filterAnnotations_absent. intros v Hv.
    rewrite (map_range_perm _ 112 g) in Hv.
    apply elem_of_map_to_list in Hv. congruence.
Qed.

(** What one pass of the loop body does to the map and to the count. *)
Lemma checkCertificate_effect (sm : gmap string Secret) (a : Analysis)
      (crt : Certificate) :
  serialsToCertificates (checkCertificate sm a crt)
  = match affectedKey sm crt with
    | Some sn => <[sn := crt]> (serialsToCertificates a)
    | None => serialsToCertificates a
    end
  ∧ skipped (checkCertificate sm a crt)
    = match affectedKey sm crt with
      | Some _ => skipped a
      | None => S (skipped a)
      end.
Proof.
  unfold checkCertificate, affectedKey.
  destruct (resolve sm crt) as [| |e|secret cert]; try done.
  cbn [say skipped serialsToCertificates logged].
  rewrite filter_loop. by destruct (passesFilter secret).
Qed.

(** Every certificate of the list is checked, in list order: no
    per-certificate outcome ends the loop. *)
Lemma checkCertificate_logs (sm : gmap string Secret) (a : Analysis)
      (crt : Certificate) :
  ∃ lines, logged (checkCertificate sm a crt)
           = (logged a ++ LogChecking (crt_Namespace crt) (crt_Name crt) :: lines)%list
           ∧ Forall (fun l => match l with LogChecking _ _ => False | _ => True end) lines.
Proof.
  unfold checkCertificate.
  destruct (resolve sm crt) as [| |e|secret cert]; cbn.
  1-3: eexists [_]; rewrite <- app_assoc; split; [done|]; by repeat constructor.
  destruct (if decide (issuerName ≠ "") then _ else _) as [skip k].
  exists []. by destruct skip.
Qed.

Lemma analysis_fold (sm : gmap string Secret) (items : list Certificate)
      (a : Analysis) :
  serialsToCertificates (fold_left (checkCertificate sm) items a)
  = fold_left (place sm) items (serialsToCertificates a)
  ∧ skipped (fold_left (checkCertificate sm) items a)
    = (skipped a
       + length (List.filter (fun crt => bool_decide (affectedKey sm crt = None)) items))%nat.
Proof.
  revert a. induction items as [|crt items IH]; intros a; cbn [fold_left List.filter].
  { split; [done|]. cbn. lia. }
  destruct (IH (checkCertificate sm a crt)) as [-> ->].
  destruct (checkCertificate_effect sm a crt) as [-> ->].
  split; [done|].
  destruct (affectedKey sm crt) as [sn|]; case_bool_decide; try done;
    cbn [length]; lia.
Qed.

Lemma place_lookup (sm : gmap string Secret) (items : list Certificate)
      (m : gmap string Certificate) (sn : string) (crt : Certificate) :
  fold_left (place sm) items m !! sn = Some crt →
  (crt ∈ items ∧ affectedKey sm crt = Some sn) ∨ m !! sn = Some crt.
Proof.
  revert m. induction items as [|c items IH]; intros m; cbn [fold_left]; [by right|].
  intros H. apply IH in H as [[Hin Hk]|H].
  - left. split; [by right|done].
  - unfold place in H. destruct (affectedKey sm c) as [k|] eqn:Hc; [|by right].
    destruct (decide (k = sn)) as [->|Hne].
    + rewrite lookup_insert_eq in H. injection H as ->. left. split; [by left|done].
    + rewrite lookup_insert_ne in H by done. by right.
Qed.

Lemma place_dom (sm : gmap string Secret) (items : list Certificate)
      (m : gmap string Certificate) :
  dom (fold_left (place sm) items m)
  = dom m ∪ list_to_set (omap (affectedKey sm) items).
Proof.
  revert m. induction items as [|c items IH]; intros m; cbn [fold_left omap list_omap].
  { by rewrite list_to_set_nil, (right_id_L ∅ (∪)). }
  rewrite IH. unfold place. destruct (affectedKey sm c) as [k|]; [|done].
  rewrite dom_insert_L, list_to_set_cons.
  rewrite (comm_L (∪) {[k]} (dom m)). by rewrite (assoc_L (∪)).
Qed.

Lemma place_untouched (sm : gmap string Secret) (items : list Certificate)
      (m : gmap string Certificate) (sn : string) :
  sn ∉ omap (affectedKey sm) items →
  fold_left (place sm) items m !! sn = m !! sn.
Proof.
  revert m. induction items as [|c items IH]; intros m Hsn; cbn [fold_left]; [done|].
  cbn [omap list_omap] in Hsn. unfold place at 2.
  destruct (affectedKey sm c) as [k|].
  - apply not_elem_of_cons in Hsn as [Hne Hsn].
    rewrite IH by done. by rewrite lookup_insert_ne.
  - by apply IH.
Qed.

Lemma place_distinct (sm : gmap string Secret) (items : list Certificate)
      (m : gmap string Certificate) (sn : string) (crt : Certificate) :
  NoDup (omap (affectedKey sm) items) →
  crt ∈ items → affectedKey sm crt = Some sn →
  fold_left (place sm) items m !! sn = Some crt.
Proof.
  revert m. induction items as [|c items IH]; intros m Hnd Hin Hk.
  { by apply elem_of_nil in Hin. }
  cbn [fold_left]. cbn [omap list_omap] in Hnd.
  apply elem_of_cons in Hin as [->|Hin].
  - unfold place at 2. rewrite Hk in *. apply NoDup_cons in Hnd as [Hfresh _].
    rewrite place_untouched by done. apply lookup_insert_eq.
  - apply IH; [|done|done]. destruct (affectedKey sm c); [|done].
    by apply NoDup_cons in Hnd as [_ ?].
Qed.

(** Last write wins: the entry of a serial number is the last certificate
    of the list that is stored under it. *)
Lemma place_last (sm : gmap string Secret) (l1 l2 : list Certificate)
      (crt : Certificate) (m : gmap string Certificate) (sn : string) :
  affectedKey sm crt = Some sn →
  (∀ c, c ∈ l2 → affectedKey sm c ≠ Some sn) →
  fold_left (place sm) (l1 ++ crt :: l2) m !! sn = Some crt.
Proof.
  intros Hk Hlater. rewrite fold_left_app. cbn [fold_left].
  rewrite place_untouched.
  - unfold place at 1. rewrite Hk. apply lookup_insert_eq.
  - intros (c & Hc & Hkc)%list_elem_of_omap. by apply (Hlater c).
Qed.
End AnalysisFacts.

Section AnalysisClaims.
Context {lib : Library} {flags : Flags}.

Lemma resolve_Decoded (sm : gmap string Secret) (crt : Certificate)
      (secret : Secret) (cert : x509_Certificate) :
  resolve sm crt = Decoded secret cert ↔
  ∃ certPEM,
    sm !! secretKey (crt_Namespace crt) (crt_SecretName crt) = Some secret
    ∧ go_lookup (sec_Data secret) TLSCertKey = Some (Some certPEM)
    ∧ pki_DecodeX509CertificateBytes certPEM = inr cert.
Proof.
  unfold resolve, go_lookup. split.
  - destruct (sm !! _) as [s|]; [|done].
    destruct (sec_Data s) as [data|] eqn:Hd; [|done].
    destruct (data !! TLSCertKey) as [[pem|]|] eqn:Hp; try done.
    destruct (pki_DecodeX509CertificateBytes pem) as [e|c] eqn:Hc; [done|].
    intros [= <- <-]. exists pem. by rewrite Hd.
  - intros (pem & -> & Hd & Hc).
    destruct (sec_Data secret) as [data|]; [|done]. by rewrite Hd, Hc.
Qed.

Lemma affectedKey_Some (sm : gmap string Secret) (crt : Certificate) (sn : string) :
  affectedKey sm crt = Some sn →
  ∃ secret cert, resolve sm crt = Decoded secret cert
                 ∧ passesFilter secret = true
                 ∧ BigInt_String (SerialNumber cert) = sn.
Proof.
  unfold affectedKey. destruct (resolve sm crt) as [| |e|secret cert]; try done.
  destruct (passesFilter secret) eqn:Hp; [|done].
  intros [= <-]. by exists secret, cert.
Qed.

Lemma affectedKey_no_filter (sm : gmap string Secret) (crt : Certificate) :
  issuerName = "" → affectedKey sm crt = decodedSerial sm crt.
Proof.
  intros Hf. unfold affectedKey, decodedSerial, passesFilter.
  destruct (resolve sm crt); try done. by rewrite decide_False by (by intros []).
Qed.

Lemma affectedKeys_no_filter (sm : gmap string Secret) (certs : list Certificate) :
  issuerName = "" →
  omap (affectedKey sm) certs = omap (decodedSerial sm) certs.
Proof.
  intros Hf. induction certs as [|c certs IH]; [done|].
  cbn. by rewrite affectedKey_no_filter, IH.
Qed.

(** What the filter of lines 111-121 decides for a decoded certificate
    when a filter is set: a secret that carries the issuer annotation is
    kept exactly when the value equals the filter; a secret without the
    annotation is kept. *)
Lemma filtered_certificate (sm : gmap string Secret) (a : Analysis)
      (crt : Certificate) (secret : Secret) (cert : x509_Certificate) :
  issuerName ≠ "" →
  resolve sm crt = Decoded secret cert →
  match go_lookup (sec_Annotations secret) IssuerNameAnnotationKey with
  | Some value =>
      if decide (value = issuerName) then
        serialsToCertificates (checkCertificate sm a crt)
        = <[BigInt_String (SerialNumber cert) := crt]> (serialsToCertificates a)
        ∧ skipped (checkCertificate sm a crt) = skipped a
      else
        serialsToCertificates (checkCertificate sm a crt) = serialsToCertificates a
        ∧ skipped (checkCertificate sm a crt) = S (skipped a)
  | None =>
      serialsToCertificates (checkCertificate sm a crt)
      = <[BigInt_String (SerialNumber cert) := crt]> (serialsToCertificates a)
      ∧ skipped (checkCertificate sm a crt) = skipped a
  end.
Proof.
  intros Hset Hres.
  destruct (checkCertificate_effect sm a crt) as [-> ->].
  unfold affectedKey, passesFilter, IssuerNameAnnotationKey.
  rewrite Hres, decide_True by done.
  destruct (go_lookup _ _) as [value|]; [|done].
  destruct (decide (value = issuerName)).
  - by rewrite bool_decide_eq_true_2.
  - by rewrite bool_decide_eq_false_2.
Qed.

Lemma remove_dups_NoDup (l : list string) : NoDup l → remove_dups l = l.
Proof.
  induction 1 as [|x l Hx Hnd IH]; [done|].
  cbn. destruct (decide_rel elem_of x l); [done|]. by rewrite IH.
Qed.

Lemma size_list_to_set_remove_dups (l : list string) :
  size (list_to_set l : gset string) = length (remove_dups l).
Proof.
  rewrite <- (size_list_to_set (C := gset string) (remove_dups l))
    by apply NoDup_remove_dups.
  f_equal. apply set_eq. intros x.
  rewrite !elem_of_list_to_set. by rewrite elem_of_remove_dups.
Qed.

(** C8: every entry of the AffectedSet is a fetched declaration whose
    backing secret exists in the fetched secrets under the declaration's
    namespace/secret-name key, holds TLS certificate bytes, and those bytes
    decode to a certificate whose serial-number string is the entry's
    key.  When the namespaces hold no ['/'], as in Kubernetes, the secret's
    namespace and name are the declaration's namespace and secret name. *)
Theorem affected_entry_is_backed (secrets : list Secret)
        (certs : list Certificate) (sn : string) (crt : Certificate) :
  serialsToCertificates (analyse (makeSecretsMap secrets) certs) !! sn = Some crt →
  crt ∈ certs
  ∧ ∃ secret certPEM cert,
      secret ∈ secrets
      ∧ secretKey (sec_Namespace secret) (sec_Name secret)
        = secretKey (crt_Namespace crt) (crt_SecretName crt)
      ∧ makeSecretsMap secrets !! secretKey (crt_Namespace crt) (crt_SecretName crt)
        = Some secret
      ∧ go_lookup (sec_Data secret) TLSCertKey = Some (Some certPEM)
      ∧ pki_DecodeX509CertificateBytes certPEM = inr cert
      ∧ BigInt_String (SerialNumber cert) = sn
      ∧ (slash_free (sec_Namespace secret) = true →
         slash_free (crt_Namespace crt) = true →
         sec_Namespace secret = crt_Namespace crt
         ∧ sec_Name secret = crt_SecretName crt).
Proof.
  unfold analyse. intros Hm.
  destruct (analysis_fold (makeSecretsMap secrets) certs (mkAnalysis ∅ 0%nat [])) as [Heq _].
  rewrite Heq in Hm. apply place_lookup in Hm as [[Hin Hk]|Hm].
  2:{ cbn [serialsToCertificates] in Hm. by rewrite lookup_empty in Hm. }
  split; [done|].
  apply affectedKey_Some in Hk as (secret & cert & Hres & _ & Hsn).
  apply resolve_Decoded in Hres as (pem & Hsec & Hdata & Hdec).
  exists secret, pem, cert.
  destruct (makeSecretsMap_Some _ _ _ Hsec) as [Hin' Hkey].
  do 6 (split; [done|]). intros Hns Hns'.
  by apply (secretKey_inj _ _ _ _ Hns Hns' Hkey).
Qed.

(** C3, as amended: with an empty filter every certificate whose backing
    secret resolves and decodes is stored under its serial-number string,
    a later certificate with the same serial number replacing an earlier
    one; the AffectedSet has as many entries as there are distinct serial
    numbers among the Correlator successes, hence as many as there are
    successes when their serial numbers are pairwise distinct, and each
    success is then its own entry. *)
Theorem empty_filter_affects_decodable (secrets : list Secret)
        (certs : list Certificate) :
  issuerName = "" →
  let sm := makeSecretsMap secrets in
  let m := serialsToCertificates (analyse sm certs) in
  let serials := omap (decodedSerial sm) certs in
  (∀ crt sn, crt ∈ certs → decodedSerial sm crt = Some sn →
     ∃ crt', m !! sn = Some crt' ∧ crt' ∈ certs ∧ decodedSerial sm crt' = Some sn)
  ∧ (∀ l1 crt l2 sn,
       certs = (l1 ++ crt :: l2)%list → decodedSerial sm crt = Some sn →
       (∀ c, c ∈ l2 → decodedSerial sm c ≠ Some sn) →
       m !! sn = Some crt)
  ∧ size m = length (remove_dups serials)
  ∧ (NoDup serials →
     size m = length serials
     ∧ ∀ crt sn, crt ∈ certs → decodedSerial sm crt = Some sn → m !! sn = Some crt).
Proof.
  intros Hf sm m serials.
  assert (m = fold_left (place sm) certs ∅) as Hm.
  { unfold m, analyse.
    by destruct (analysis_fold sm certs (mkAnalysis ∅ 0%nat [])) as [-> _]. }
  assert (omap (affectedKey sm) certs = serials) as Hser.
  { by apply affectedKeys_no_filter. }
  assert (dom m = list_to_set serials) as Hdom.
  { rewrite Hm, place_dom, Hser, dom_empty_L. by rewrite (left_id_L ∅ (∪)). }
  assert (size m = length (remove_dups serials)) as Hsize.
  { rewrite <- size_dom, Hdom. apply size_list_to_set_remove_dups. }
  split; [|split; [|split; [done|]]].
  - intros crt sn Hin Hk.
    assert (sn ∈ dom m) as Hsn.
    { rewrite Hdom. apply elem_of_list_to_set. unfold serials.
      apply list_elem_of_omap. by exists crt. }
    apply elem_of_dom in Hsn as [crt' Hcrt']. exists crt'. split; [done|].
    rewrite Hm in Hcrt'. apply place_lookup in Hcrt' as [[Hin' Hk']|He].
    + by rewrite affectedKey_no_filter in Hk'.
    + by rewrite lookup_empty in He.
  - intros l1 crt l2 sn Hsplit Hk Hlater. rewrite Hm, Hsplit.
    apply place_last; [by rewrite affectedKey_no_filter|].
    intros c Hc. rewrite affectedKey_no_filter by done. by apply Hlater.
  - intros Hnd. split.
    + rewrite Hsize. by rewrite remove_dups_NoDup.
    + intros crt sn Hin Hk. rewrite Hm. apply place_distinct; [by rewrite Hser|done|].
      by rewrite affectedKey_no_filter.
Qed.
End AnalysisClaims.

(** ** Renewal of one certificate *)

Section RenewalFacts.
Context {W : Type} {cl : Cluster W} {lib : Library} {flags : Flags}.

Lemma findOwned_Some (items : list CertificateRequest) (cert : Certificate)
      (req : CertificateRequest) :
  findOwned items cert = Some req →
  req ∈ items ∧ metav1_IsControlledBy req cert = true.
Proof.
  induction items as [|r items IH]; [done|]. cbn.
  destruct (metav1_IsControlledBy r cert) eqn:Ho.
  - intros [= <-]. split; [by left|done].
  - intros H. destruct (IH H). split; [by right|done].
Qed.

Lemma findOwned_existsb (items : list CertificateRequest) (cert : Certificate) :
  existsb (fun req => metav1_IsControlledBy req cert) items
  = bool_decide (is_Some (findOwned items cert)).
Proof.
  induction items as [|r items IH]; [done|]. cbn.
  destruct (metav1_IsControlledBy r cert); [|done].
  symmetry. by apply bool_decide_eq_true_2.
Qed.

(** *** CancelStale *)

(** When the first owned request of the listing is in progress, the loop
    returns success at once: no call, one log line. *)
Lemma cancelStale_first_in_progress (items : list CertificateRequest)
      (cert : Certificate) (req : CertificateRequest) (st : Proc W) :
  findOwned items cert = Some req →
  go_len (req_StatusCertificate req) = 0%nat →
  cancelStale items cert st
  = (Val (Returned None),
     mkProc (world st) (calls st)
            (output st ++ [LogInProgress (req_Namespace req) (req_Name req)])).
Proof.
  induction items as [|r items IH]; [done|]. cbn.
  destruct (metav1_IsControlledBy r cert) eqn:Ho; cbn.
  - intros [= ->] ->. done.
  - intros Hf Hlen. by apply IH.
Qed.

(** When some owned request of the listing is in progress, the loop never
    runs to completion: the function returns from within it, having
    issued only deletions of completed owned requests of the listing. *)
Lemma cancelStale_in_progress (items : list CertificateRequest)
      (cert : Certificate) (st : Proc W) :
  (∃ req, req ∈ items ∧ metav1_IsControlledBy req cert = true
          ∧ go_len (req_StatusCertificate req) = 0%nat) →
  ∃ e deleted st',
    cancelStale items cert st = (Val (Returned e), st')
    ∧ calls st' = (calls st ++ map CallDelete deleted)%list
    ∧ Forall (fun d => d ∈ items ∧ metav1_IsControlledBy d cert = true
                       ∧ go_len (req_StatusCertificate d) ≠ 0%nat) deleted.
Proof.
  revert st. induction items as [|r items IH]; intros st (req & Hin & Ho & Hlen).
  { by apply elem_of_nil in Hin. }
  assert (∀ ds, Forall (fun d => d ∈ items ∧ metav1_IsControlledBy d cert = true
                                 ∧ go_len (req_StatusCertificate d) ≠ 0%nat) ds →
                Forall (fun d => d ∈ r :: items ∧ metav1_IsControlledBy d cert = true
                                 ∧ go_len (req_StatusCertificate d) ≠ 0%nat) ds) as Hweak.
  { intros ds Hds. eapply Forall_impl; [exact Hds|].
    intros d (? & ? & ?). split; [by right|done]. }
  cbn [cancelStale].
  destruct (metav1_IsControlledBy r cert) eqn:Hr; cbn [negb].
  - destruct (Nat.eqb (go_len (req_StatusCertificate r)) 0) eqn:Hz.
    + exists None, [], (mkProc (world st) (calls st)
                          (output st ++ [LogInProgress (req_Namespace r) (req_Name r)])).
      split; [done|]. split; [by rewrite app_nil_r|constructor].
    + apply Nat.eqb_neq in Hz.
      assert (req ∈ items) as Hin'.
      { apply elem_of_cons in Hin as [->|?]; [done|done]. }
      unfold bind at 1, invoke.
      destruct (Delete_CertificateRequest r (world st)) as [[e|] w] eqn:Hd.
      * eexists (Some e), [r], _. split; [reflexivity|]. cbn. split; [done|].
        constructor; [|constructor]. split; [by left|done].
      * cbn. 
        destruct (IH (mkProc w (calls st ++ [CallDelete r])
                             (output st ++ [LogDeleted (req_Namespace r) (req_Name r)]))
                     (ex_intro _ req (conj Hin' (conj Ho Hlen))))
          as (e & ds & st' & Hrun & Hcalls & Hds).
        exists e, (r :: ds), st'. split; [exact Hrun|]. split.
        -- rewrite Hcalls. cbn. by rewrite <- app_assoc.
        -- constructor; [|by apply Hweak]. split; [by left|done].
  - assert (req ∈ items) as Hin'.
    { apply elem_of_cons in Hin as [->|?]; [congruence|done]. }
    destruct (IH st (ex_intro _ req (conj Hin' (conj Ho Hlen))))
      as (e & ds & st' & Hrun & Hcalls & Hds).
    exists e, ds, st'. split; [done|]. split; [done|by apply Hweak].
Qed.

Lemma cancelStale_total (items : list CertificateRequest) (cert : Certificate)
      (st : Proc W) :
  ∃ f st', cancelStale items cert st = (Val f, st').
Proof.
  revert st. induction items as [|r items IH]; intros st; [by eexists _, _|].
  cbn [cancelStale]. destruct (negb _); [apply IH|].
  destruct (Nat.eqb _ 0); [by eexists _, _|].
  unfold bind at 1, invoke.
  destruct (Delete_CertificateRequest r (world st)) as [[e|] w]; [by eexists _, _|].
  cbn. apply IH.
Qed.

(** *** Annotate *)

Lemma setIssuerAnnotation_Some (secret : Secret) :
  setIssuerAnnotation secret
  = Some (mkSecret (sec_Namespace secret) (sec_Name secret)
                   (Some (<[IssuerNameAnnotationKey := "force-renewal-triggered"]>
                            (default ∅ (sec_Annotations secret))))
                   (sec_Data secret)).
Proof. unfold setIssuerAnnotation. by destruct (sec_Annotations secret). Qed.

(** C10: the write of lines 196-199 succeeds on every secret, one with a
    nil annotation map included, and leaves the sentinel under the issuer
    annotation key; so Annotate never panics, and it fails exactly when
    the re-read fails or the update fails. *)
Theorem annotate_never_faults (cert : Certificate) (st : Proc W) :
  (∀ secret, ∃ secret',
      setIssuerAnnotation secret = Some secret'
      ∧ go_lookup (sec_Annotations secret') IssuerNameAnnotationKey
        = Some "force-renewal-triggered")
  ∧ ∃ f st',
      annotate cert st = (Val f, st')
      ∧ match Get_Secret (crt_Namespace cert) (crt_SecretName cert) (world st) with
        | (inl e, _) => f = Returned (Some e)
        | (inr secret, w) =>
            ∃ secret', setIssuerAnnotation secret = Some secret'
                       ∧ match Update_Secret secret' w with
                         | (Some e, _) => f = Returned (Some e)
                         | (None, _) => f = Completed
                         end
        end.
Proof.
  split.
  - intros secret. eexists. split; [apply setIssuerAnnotation_Some|].
    cbn. apply lookup_insert_eq.
  - unfold annotate, bind at 1, invoke.
    destruct (Get_Secret _ _ (world st)) as [[e|secret] w]; cbn.
    { by eexists _, _. }
    rewrite setIssuerAnnotation_Some. unfold bind at 1. cbn.
    match goal with |- context [Update_Secret ?s w] =>
      destruct (Update_Secret s w) as [[e|] w'] eqn:Hu end; cbn.
    + eexists _, _. split; [reflexivity|]. eexists. split; [reflexivity|].
      by rewrite Hu.
    + eexists _, _. split; [reflexivity|]. eexists. split; [reflexivity|].
      by rewrite Hu.
Qed.

Lemma annotate_total (cert : Certificate) (st : Proc W) :
  ∃ f st', annotate cert st = (Val f, st').
Proof.
  unfold annotate, bind at 1, invoke.
  destruct (Get_Secret _ _ (world st)) as [[e|secret] w]; cbn; [by eexists _, _|].
  rewrite setIssuerAnnotation_Some. unfold bind at 1. cbn.
  match goal with |- context [Update_Secret ?s w] =>
    destruct (Update_Secret s w) as [[e|] w'] end; by eexists _, _.
Qed.

(** *** AwaitRequest *)

Lemma poll_quiet (cert : Certificate) (st : Proc W) (n : nat) :
  quietAt 0 cert (world st) →
  pollLoop (S n) time_Second (requestExists cert) st
  = pollLoop n time_Second (requestExists cert)
             (mkProc (snd (pollOnce cert (world st)))
                     (calls st ++ [CallListRequests (crt_Namespace cert)])
                     (output st)).
Proof.
  unfold quietAt, pollSees. cbn [worldAfterPolls]. intros Hq. cbn [pollLoop].
  unfold bind at 1, sleep. unfold bind at 1, requestExists, bind at 1, invoke.
  cbn [world calls output]. unfold pollOnce in *.
  destruct (List_CertificateRequests _ _) as [[e|items] w']; [done|].
  cbn in Hq. injection Hq as Hq. rewrite findOwned_existsb in Hq.
  apply bool_decide_eq_false in Hq.
  destruct (findOwned items cert); [|done]. by destruct Hq.
Qed.


Lemma poll_quiet_prefix (cert : Certificate) (k n : nat) (st : Proc W) :
  (∀ j, (j < k)%nat → quietAt j cert (world st)) →
  pollLoop (k + n) time_Second (requestExists cert) st
  = pollLoop n time_Second (requestExists cert)
             (mkProc (worldAfterPolls k cert (world st))
                     (calls st ++ replicate k (CallListRequests (crt_Namespace cert)))
                     (output st)).
Proof.
  revert st. induction k as [|k IH]; intros st Hq.
  { cbn. rewrite app_nil_r. by destruct st. }
  cbn [Nat.add]. rewrite poll_quiet by (apply Hq; lia).
  rewrite IH.
  - cbn [world calls output worldAfterPolls replicate].
    by rewrite <- app_assoc.
  - intros j Hj. cbn [world]. apply (Hq (S j)). lia.
Qed.


Lemma poll_ceiling : Z.to_nat (time_Minute / time_Second) = 60%nat.
Proof. reflexivity. Qed.


Lemma pollLoop_total (cert : Certificate) (n : nat) (st : Proc W) :
  ∃ r st', pollLoop n time_Second (requestExists cert) st = (Val r, st').
Proof.
  revert st. induction n as [|n IH]; intros st; [by eexists _, _|].
  cbn [pollLoop]. unfold bind at 1, sleep. unfold bind at 1, requestExists, bind at 1, invoke.
  cbn [world calls output].
  destruct (List_CertificateRequests _ _) as [[e|items] w]; cbn; [by eexists _, _|].
  destruct (findOwned items cert); cbn; [by eexists _, _|]. apply IH.
Qed.

Lemma awaitRequest_total (cert : Certificate) (st : Proc W) :
  ∃ r st', awaitRequest cert st = (Val r, st').
Proof.
  unfold awaitRequest, wait_Poll, bind at 1, log. unfold bind at 1.
  match goal with |- context [pollLoop ?n _ _ ?s] =>
    destruct (pollLoop_total cert n s) as ([e|] & st' & ->) end;
    cbn; by eexists _, _.
Qed.

(** *** [renewCertificate] *)

(** A renewal always returns: it never panics. *)
Lemma renewCertificate_total (cert : Certificate) (st : Proc W) :
  ∃ r st', renewCertificate cert st = (Val r, st').
Proof.
  unfold renewCertificate, bind at 1, invoke.
  destruct (List_CertificateRequests _ (world st)) as [[e|items] w]; cbn;
    [by eexists _, _|].
  unfold bind at 1.
  match goal with |- context [cancelStale items cert ?s] =>
    destruct (cancelStale_total items cert s) as ([|e] & st1 & ->) end;
    [|by eexists _, _].
  unfold bind at 1.
  destruct (annotate_total cert st1) as ([|e] & st2 & ->); [|by eexists _, _].
  apply awaitRequest_total.
Qed.

(** Once CancelStale and Annotate have run to completion, the result of
    the renewal is the result of AwaitRequest: its timeout is propagated. *)
Lemma renewCertificate_awaits (cert : Certificate) (st st1 st2 : Proc W)
      (items : list CertificateRequest) (w' : W) :
  List_CertificateRequests (crt_Namespace cert) (world st) = (inr items, w') →
  cancelStale items cert
    (mkProc w' (calls st ++ [CallListRequests (crt_Namespace cert)]) (output st))
  = (Val Completed, st1) →
  annotate cert st1 = (Val Completed, st2) →
  renewCertificate cert st = awaitRequest cert st2.
Proof.
  intros Hlist Hcancel Hannotate.
  unfold renewCertificate, bind at 1, invoke. rewrite Hlist. cbn.
  unfold bind at 1. rewrite Hcancel. unfold bind at 1. by rewrite Hannotate.
Qed.

Lemma deletions_prefix (reqs : list CertificateRequest) (w : W) :
  fst (fst (deletions reqs w)) `prefix_of` reqs
  ∧ (snd (fst (deletions reqs w)) = None → fst (fst (deletions reqs w)) = reqs).
Proof.
  revert w. induction reqs as [|r reqs IH]; intros w; [done|]. cbn [deletions].
  destruct (Delete_CertificateRequest r w) as [[e|] w1]; cbn.
  { split; [apply prefix_cons, prefix_nil|done]. }
  destruct (IH w1) as [Hpre Hall].
  destruct (deletions reqs w1) as [[ds err] w2]. cbn in *.
  split; [by apply prefix_cons|]. intros Herr. by rewrite (Hall Herr).
Qed.

(** The first in-progress request the certificate controls: every
    controlled request listed before it is complete. *)
Lemma first_in_progress_split (items : list CertificateRequest) (cert : Certificate) :
  (∃ req, req ∈ items ∧ metav1_IsControlledBy req cert = true
          ∧ go_len (req_StatusCertificate req) = 0%nat) →
  ∃ before req after,
    items = (before ++ req :: after)%list
    ∧ metav1_IsControlledBy req cert = true
    ∧ go_len (req_StatusCertificate req) = 0%nat
    ∧ Forall (fun d => completed d = true) (ownedBy cert before).
Proof.
  induction items as [|r items IH]; intros (req & Hin & Ho & Hlen).
  { by apply elem_of_nil in Hin. }
  destruct (metav1_IsControlledBy r cert) eqn:Hr.
  - destruct (Nat.eqb (go_len (req_StatusCertificate r)) 0) eqn:Hz.
    + apply Nat.eqb_eq in Hz. exists [], r, items. by repeat split.
    + assert (req ∈ items) as Hin'.
      { apply elem_of_cons in Hin as [->|?]; [|done].
        apply Nat.eqb_neq in Hz. done. }
      destruct (IH (ex_intro _ req (conj Hin' (conj Ho Hlen))))
        as (before & q & after & -> & Hq & Hqlen & Hdone).
      exists (r :: before), q, after. split; [done|]. split; [done|]. split; [done|].
      unfold ownedBy. cbn [List.filter]. rewrite Hr. constructor; [|exact Hdone].
      unfold completed. by rewrite Hz.
  - assert (req ∈ items) as Hin'.
    { apply elem_of_cons in Hin as [->|?]; [congruence|done]. }
    destruct (IH (ex_intro _ req (conj Hin' (conj Ho Hlen))))
      as (before & q & after & -> & Hq & Hqlen & Hdone).
    exists (r :: before), q, after. split; [done|]. split; [done|]. split; [done|].
    unfold ownedBy. cbn [List.filter]. by rewrite Hr.
Qed.

(** CancelStale up to the first in-progress controlled request: it deletes
    the completed controlled requests listed before it, one by one, and
    returns the error of the first deletion that fails, or success when it
    reaches the in-progress request. *)
Lemma cancelStale_stops_at_in_progress (before after : list CertificateRequest)
      (req : CertificateRequest) (cert : Certificate) (st : Proc W) :
  metav1_IsControlledBy req cert = true →
  go_len (req_StatusCertificate req) = 0%nat →
  Forall (fun d => completed d = true) (ownedBy cert before) →
  ∃ st',
    cancelStale (before ++ req :: after) cert st
    = (Val (Returned (snd (fst (deletions (ownedBy cert before) (world st))))), st')
    ∧ world st' = snd (deletions (ownedBy cert before) (world st))
    ∧ calls st'
      = (calls st
         ++ map CallDelete (fst (fst (deletions (ownedBy cert before) (world st)))))%list
    ∧ (snd (fst (deletions (ownedBy cert before) (world st))) = None →
       last (output st') = Some (LogInProgress (req_Namespace req) (req_Name req))).
Proof.
  intros Ho Hlen. revert st.
  induction before as [|r before IH]; intros st Hdone.
  - cbn. rewrite Ho, Hlen. cbn. eexists. split; [reflexivity|]. cbn.
    rewrite app_nil_r. repeat split. intros _. apply last_snoc.
  - cbn [app cancelStale]. unfold ownedBy in *. cbn [List.filter] in *.
    fold (ownedBy cert before) in *.
    destruct (metav1_IsControlledBy r cert) eqn:Hr; cbn [negb]; [|by apply IH].
    apply Forall_cons in Hdone as [Hrdone Hdone].
    unfold completed in Hrdone. apply negb_true_iff in Hrdone. rewrite Hrdone.
    unfold bind at 1, invoke. cbn [deletions].
    destruct (Delete_CertificateRequest r (world st)) as [[e|] w1].
    + cbn. eexists. split; [reflexivity|]. cbn. by repeat split.
    + cbn [bind log].
      destruct (IH (mkProc w1 (calls st ++ [CallDelete r])
                           (output st ++ [LogDeleted (req_Namespace r) (req_Name r)]))
                   Hdone) as (st' & Hrun & Hworld & Hcalls & Hlast).
      cbn [world calls] in Hrun, Hworld, Hcalls, Hlast.
      destruct (deletions (ownedBy cert before) w1) as [[ds err] w2].
      cbn [fst snd] in *. exists st'. split; [exact Hrun|]. split; [done|].
      split; [|done]. rewrite Hcalls. cbn. by rewrite <- app_assoc.
Qed.

(** C2, as amended: when the listing of the certificate's namespace holds
    an owned request with an empty completion marker, the renewal never
    reads or updates a secret.  It deletes, in listing order, the completed
    owned requests listed before the first in-progress owned request, and
    nothing else; it returns success (early Done) unless one of these
    deletions fails, in which case it stops at that deletion and returns its
    error.  When the in-progress request is the first owned request of the
    listing, the renewal issues no deletion at all, returns success, and
    leaves the world as the listing left it. *)
Theorem in_progress_request_blocks_renewal (cert : Certificate)
        (st : Proc W) (items : list CertificateRequest) (w' : W) :
  List_CertificateRequests (crt_Namespace cert) (world st) = (inr items, w') →
  (∃ req, req ∈ items ∧ metav1_IsControlledBy req cert = true
          ∧ go_len (req_StatusCertificate req) = 0%nat) →
  (∃ before req after deleted err w'' st',
      items = (before ++ req :: after)%list
      ∧ metav1_IsControlledBy req cert = true
      ∧ go_len (req_StatusCertificate req) = 0%nat
      ∧ Forall (fun d => completed d = true) (ownedBy cert before)
      ∧ deletions (ownedBy cert before) w' = (deleted, err, w'')
      ∧ renewCertificate cert st = (Val err, st')
      ∧ world st' = w''
      ∧ calls st' = (calls st ++ CallListRequests (crt_Namespace cert)
                              :: map CallDelete deleted)%list
      ∧ deleted `prefix_of` ownedBy cert before
      ∧ (err = None →
         deleted = ownedBy cert before
         ∧ last (output st')
           = Some (LogInProgress (req_Namespace req) (req_Name req))))
  ∧ (∀ req, findOwned items cert = Some req →
            go_len (req_StatusCertificate req) = 0%nat →
            renewCertificate cert st
            = (Val None,
               mkProc w' (calls st ++ [CallListRequests (crt_Namespace cert)])
                      (output st ++ [LogInProgress (req_Namespace req) (req_Name req)]))).
Proof.
  intros Hlist Hprog. split.
  - destruct (first_in_progress_split items cert Hprog)
      as (before & req & after & -> & Ho & Hlen & Hdone).
    destruct (cancelStale_stops_at_in_progress before after req cert
                (mkProc w' (calls st ++ [CallListRequests (crt_Namespace cert)])
                        (output st)) Ho Hlen Hdone)
      as (st' & Hrun & Hworld & Hcalls & Hlast).
    cbn [world calls] in Hrun, Hworld, Hcalls, Hlast.
    destruct (deletions_prefix (ownedBy cert before) w') as [Hpre Hall].
    destruct (deletions (ownedBy cert before) w') as [[deleted err] w''] eqn:Hdel.
    cbn [fst snd] in *.
    exists before, req, after, deleted, err, w'', st'.
    do 5 (split; [done|]). split.
    { unfold renewCertificate, bind at 1, invoke. rewrite Hlist. cbn.
      unfold bind at 1. by rewrite Hrun. }
    split; [done|]. split.
    { rewrite Hcalls. by rewrite <- app_assoc. }
    split; [done|]. intros Herr. split; [by apply Hall|by apply Hlast].
  - intros req Hfirst Hlen.
    unfold renewCertificate, bind at 1, invoke. rewrite Hlist. cbn.
    unfold bind at 1.
    by rewrite (cancelStale_first_in_progress items cert req) by done.
Qed.

(** *** The renewal loop and [run] *)

Lemma renewAll_total (entries : list (string * Certificate)) (st : Proc W) :
  ∃ r st', renewAll entries st = (Val r, st').
Proof.
  revert st. induction entries as [|[sn cert] rest IH]; intros st; [by eexists _, _|].
  cbn [renewAll]. unfold bind at 1, log. unfold bind at 1.
  match goal with |- context [renewCertificate cert ?s] =>
    destruct (renewCertificate_total cert s) as ([e|] & st' & ->) end.
  - cbn. by eexists _, _.
  - apply IH.
Qed.

Lemma renewAll_cons (sn : string) (cert : Certificate)
      (rest : list (string * Certificate)) (st : Proc W) :
  renewAll ((sn, cert) :: rest) st
  = match renewCertificate cert
            (mkProc (world st) (calls st)
                    (output st ++ [LogTriggering (crt_Namespace cert) (crt_Name cert)]))
    with
    | (Val (Some e), st') =>
        (Val (Some e),
         mkProc (world st') (calls st')
                (output st' ++ [LogRenewFailed (crt_Namespace cert) (crt_Name cert) e]))
    | (Val None, st') => renewAll rest st'
    | (Panic msg, st') => (Panic msg, st')
    end.
Proof.
  cbn [renewAll]. unfold bind at 1, log. unfold bind at 1.
  by destruct (renewCertificate cert _) as [[[e|]|msg] st'].
Qed.

(** The loop stops at the first renewal that fails: whatever follows it
    in the iteration order has no part in the result. *)
Lemma renewAll_abort (before after : list (string * Certificate))
      (sn : string) (cert : Certificate) (e : error) (st st1 st2 : Proc W) :
  renewAll before st = (Val None, st1) →
  renewCertificate cert
    (mkProc (world st1) (calls st1)
            (output st1 ++ [LogTriggering (crt_Namespace cert) (crt_Name cert)]))
  = (Val (Some e), st2) →
  renewAll (before ++ (sn, cert) :: after) st
  = (Val (Some e),
     mkProc (world st2) (calls st2)
            (output st2 ++ [LogRenewFailed (crt_Namespace cert) (crt_Name cert) e])).
Proof.
  revert st. induction before as [|[sn' c] before IH]; intros st Hbefore Hfail.
  - injection Hbefore as <-. cbn [app]. by rewrite renewAll_cons, Hfail.
  - cbn [app]. rewrite renewAll_cons in Hbefore |- *.
    destruct (renewCertificate c _) as [[[e'|]|msg] st']; [done| |done].
    by apply IH.
Qed.

(** Runs the prelude of [run] (lines 59-82) against the answers of the
    cluster that are among the hypotheses. *)
Ltac run_steps :=
  unfold run, bind, lift, invoke, log; cbn -[analyseAndRenew];
  repeat match goal with
         | H : ?op = (_, _) |- context [?op] =>
             rewrite H; cbn -[analyseAndRenew]
         end.

Lemma run_fetched (st : Proc W) (w1 w2 w3 w4 : W) (certs : list Certificate)
      (secrets : list Secret) :
  apiutil_NewDynamicRESTMapper (world st) = (None, w1) →
  client_New w1 = (None, w2) →
  List_Certificates w2 = (inr certs, w3) →
  List_Secrets w3 = (inr secrets, w4) →
  run st
  = analyseAndRenew certs secrets
      (mkProc w4 (calls st ++ [CallListCertificates; CallListSecrets])
              (output st ++ [LogFound (length certs)])).
Proof.
  intros Hm Hc Hl1 Hl2. run_steps. by rewrite <- app_assoc.
Qed.

Lemma run_reaches_renewals (st : Proc W) (w1 w2 w3 w4 : W)
      (certs : list Certificate) (secrets : list Secret) :
  renew = true →
  apiutil_NewDynamicRESTMapper (world st) = (None, w1) →
  client_New w1 = (None, w2) →
  List_Certificates w2 = (inr certs, w3) →
  List_Secrets w3 = (inr secrets, w4) →
  size (serialsToCertificates (analyse (makeSecretsMap secrets) certs)) ≠ 0%nat →
  run st
  = renewAll (map_range 150 (serialsToCertificates (analyse (makeSecretsMap secrets) certs)))
             (renewalStart st certs secrets w4).
Proof.
  intros Hr Hm Hc Hl1 Hl2 Hsize.
  rewrite (run_fetched st w1 w2 w3 w4 certs secrets) by done.
  unfold analyseAndRenew, renewalStart.
  apply Nat.eqb_neq in Hsize. rewrite Hsize, Hr. cbn [negb].
  unfold bind, logs, log, sleep. cbn [world calls output].
  f_equal. f_equal. rewrite <- !app_assoc. done.
Qed.

Lemma run_reports_only (st : Proc W) (w1 w2 w3 w4 : W)
      (certs : list Certificate) (secrets : list Secret) :
  renew = false
  ∨ size (serialsToCertificates (analyse (makeSecretsMap secrets) certs)) = 0%nat →
  apiutil_NewDynamicRESTMapper (world st) = (None, w1) →
  client_New w1 = (None, w2) →
  List_Certificates w2 = (inr certs, w3) →
  List_Secrets w3 = (inr secrets, w4) →
  run st = (Val None, reportOnly st certs secrets w4).
Proof.
  intros Hdry Hm Hc Hl1 Hl2.
  rewrite (run_fetched st w1 w2 w3 w4 certs secrets) by done.
  unfold analyseAndRenew, reportOnly.
  destruct (Nat.eqb (size _) 0) eqn:Hz.
  - unfold bind, logs, log, ret. cbn [world calls output].
    f_equal. f_equal. rewrite <- !app_assoc. done.
  - destruct Hdry as [->|Hzero]; [|apply Nat.eqb_neq in Hz; done].
    cbn [negb]. unfold bind, logs, log, ret. cbn [world calls output].
    f_equal. f_equal. rewrite <- !app_assoc. done.
Qed.

(** C5: when the renewal loop meets the first certificate whose renewal
    fails, [run] returns that error in the state that failed renewal left
    (plus the one log line that reports it): the certificates that follow
    in the iteration order are not processed in any way. *)
Theorem first_renewal_failure_aborts_run (st : Proc W) (w1 w2 w3 w4 : W)
        (certs : list Certificate) (secrets : list Secret)
        (before after : list (string * Certificate))
        (sn : string) (cert : Certificate) (e : error) (st1 st2 : Proc W) :
  renew = true →
  apiutil_NewDynamicRESTMapper (world st) = (None, w1) →
  client_New w1 = (None, w2) →
  List_Certificates w2 = (inr certs, w3) →
  List_Secrets w3 = (inr secrets, w4) →
  map_range 150 (serialsToCertificates (analyse (makeSecretsMap secrets) certs))
  = (before ++ (sn, cert) :: after)%list →
  renewAll before (renewalStart st certs secrets w4) = (Val None, st1) →
  renewCertificate cert
    (mkProc (world st1) (calls st1)
            (output st1 ++ [LogTriggering (crt_Namespace cert) (crt_Name cert)]))
  = (Val (Some e), st2) →
  run st
  = (Val (Some e),
     mkProc (world st2) (calls st2)
            (output st2 ++ [LogRenewFailed (crt_Namespace cert) (crt_Name cert) e])).
Proof.
  intros Hr Hm Hc Hl1 Hl2 Horder Hbefore Hfail.
  rewrite (run_reaches_renewals st w1 w2 w3 w4 certs secrets); try done.
  - rewrite Horder. by apply renewAll_abort with (st1 := st1).
  - rewrite <- length_map_to_list, <- (map_range_perm _ 150), Horder.
    rewrite length_app. cbn. lia.
Qed.

Lemma run_certificates_error (st : Proc W) (w1 w2 w3 : W) (e : error) :
  apiutil_NewDynamicRESTMapper (world st) = (None, w1) →
  client_New w1 = (None, w2) →
  List_Certificates w2 = (inl e, w3) →
  run st
  = (Val (Some (Errorf "error listing Certificate resources" e)),
     mkProc w3 (calls st ++ [CallListCertificates]) (output st)).
Proof.
  intros Hm Hc Hl1. by run_steps.
Qed.

Lemma run_secrets_error (st : Proc W) (w1 w2 w3 w4 : W)
      (certs : list Certificate) (e : error) :
  apiutil_NewDynamicRESTMapper (world st) = (None, w1) →
  client_New w1 = (None, w2) →
  List_Certificates w2 = (inr certs, w3) →
  List_Secrets w3 = (inl e, w4) →
  run st
  = (Val (Some (Errorf "error listing Secret resources" e)),
     mkProc w4 (calls st ++ [CallListCertificates; CallListSecrets])
            (output st ++ [LogFound (length certs)])).
Proof.
  intros Hm Hc Hl1 Hl2. run_steps. by rewrite <- app_assoc.
Qed.

(** C6: if the listing of the certificates fails, or it succeeds and the
    listing of the secrets fails, [run] returns the error (wrapped) at
    once: the only client calls issued are the listings, nothing is logged
    beyond the number of certificates found, so no certificate is
    classified, no count is reported and nothing is deleted or updated. *)
Theorem fetch_error_aborts_run (st : Proc W) (w1 w2 : W) :
  apiutil_NewDynamicRESTMapper (world st) = (None, w1) →
  client_New w1 = (None, w2) →
  (∀ e w3,
      List_Certificates w2 = (inl e, w3) →
      run st
      = (Val (Some (Errorf "error listing Certificate resources" e)),
         mkProc w3 (calls st ++ [CallListCertificates]) (output st)))
  ∧ (∀ certs w3 e w4,
      List_Certificates w2 = (inr certs, w3) →
      List_Secrets w3 = (inl e, w4) →
      run st
      = (Val (Some (Errorf "error listing Secret resources" e)),
         mkProc w4 (calls st ++ [CallListCertificates; CallListSecrets])
                (output st ++ [LogFound (length certs)]))).
Proof.
  intros Hm Hc. split.
  - intros e w3 Hl1. by apply (run_certificates_error st w1 w2).
  - intros certs w3 e w4 Hl1 Hl2. by apply (run_secrets_error st w1 w2 w3).
Qed.

(** C9: with the renew flag false, [run] never panics and issues no
    deleting or updating call, whatever the cluster answers; and once both
    lists are fetched it returns success, in the state the second listing
    left plus the report, however many certificates are affected. *)
Theorem dry_run_mutates_nothing (st : Proc W) :
  renew = false →
  (∃ r st' cs,
      run st = (Val r, st')
      ∧ calls st' = (calls st ++ cs)%list
      ∧ Forall (fun c => is_mutation c = false) cs)
  ∧ (∀ w1 w2 w3 w4 certs secrets,
      apiutil_NewDynamicRESTMapper (world st) = (None, w1) →
      client_New w1 = (None, w2) →
      List_Certificates w2 = (inr certs, w3) →
      List_Secrets w3 = (inr secrets, w4) →
      run st = (Val None, reportOnly st certs secrets w4)).
Proof.
  intros Hr. split.
  - destruct (apiutil_NewDynamicRESTMapper (world st)) as [[e|] w1] eqn:Hm.
    { exists (Some e), (mkProc w1 (calls st) (output st)), [].
      unfold run, bind, lift. rewrite Hm. cbn.
      split; [done|]. split; [by rewrite app_nil_r|constructor]. }
    destruct (client_New w1) as [[e|] w2] eqn:Hc.
    { exists (Some (Errorf "error building API client" e)),
             (mkProc w2 (calls st) (output st)), [].
      unfold run, bind, lift. rewrite Hm. cbn. rewrite Hc. cbn.
      split; [done|]. split; [by rewrite app_nil_r|constructor]. }
    destruct (List_Certificates w2) as [[e|certs] w3] eqn:Hl1.
    { rewrite (run_certificates_error st w1 w2 w3 e) by done.
      eexists _, _, [_]. split; [done|]. split; [done|].
      by repeat constructor. }
    destruct (List_Secrets w3) as [[e|secrets] w4] eqn:Hl2.
    { rewrite (run_secrets_error st w1 w2 w3 w4 certs e) by done.
      eexists _, _, [_; _].
      split; [done|]. split; [done|]. by repeat constructor. }
    rewrite (run_reports_only st w1 w2 w3 w4 certs secrets) by auto.
    eexists _, _, [_; _]. split; [done|]. split; [done|]. by repeat constructor.
  - intros w1 w2 w3 w4 certs secrets Hm Hc Hl1 Hl2.
    apply (run_reports_only st w1 w2 w3 w4); auto.
Qed.

(** [run] always returns: no path through it panics. *)
Lemma run_total (st : Proc W) : ∃ r st', run st = (Val r, st').
Proof.
  destruct (apiutil_NewDynamicRESTMapper (world st)) as [[e|] w1] eqn:Hm.
  { unfold run, bind, lift. rewrite Hm. by eexists _, _. }
  destruct (client_New w1) as [[e|] w2] eqn:Hc.
  { unfold run, bind, lift. rewrite Hm. cbn. rewrite Hc. by eexists _, _. }
  destruct (List_Certificates w2) as [[e|certs] w3] eqn:Hl1.
  { rewrite (run_certificates_error st w1 w2 w3 e) by done. by eexists _, _. }
  destruct (List_Secrets w3) as [[e|secrets] w4] eqn:Hl2.
  { rewrite (run_secrets_error st w1 w2 w3 w4 certs e) by done. by eexists _, _. }
  destruct (decide (size (serialsToCertificates
                            (analyse (makeSecretsMap secrets) certs)) = 0%nat)) as [Hz|Hz].
  { rewrite (run_reports_only st w1 w2 w3 w4 certs secrets) by auto. by eexists _, _. }
  destruct renew eqn:Hr.
  - rewrite (run_reaches_renewals st w1 w2 w3 w4 certs secrets) by done.
    apply renewAll_total.
  - rewrite (run_reports_only st w1 w2 w3 w4 certs secrets) by auto. by eexists _, _.
Qed.
(** An error the renewal loop returns is the error of the renewal of one of
    its entries. *)
Lemma renewAll_error_origin (entries : list (string * Certificate)) (e : error)
      (st st' : Proc W) :
  renewAll entries st = (Val (Some e), st') →
  ∃ sn cert st1 st2,
    (sn, cert) ∈ entries ∧ renewCertificate cert st1 = (Val (Some e), st2).
Proof.
  revert st. induction entries as [|[sn cert] entries IH]; intros st; [done|].
  rewrite renewAll_cons.
  destruct (renewCertificate cert _) as [[[e'|]|msg] st1] eqn:Hrenew; [| |done].
  - intros [= -> <-]. eexists sn, cert, _, st1. split; [by left|exact Hrenew].
  - intros Hrest. destruct (IH st1 Hrest) as (sn' & c & s1 & s2 & Hin & Hr).
    exists sn', c, s1, s2. split; [by right|done].
Qed.

(** C7: the Correlator (lines 91-108) leaves the loop body through one of
    its three skips exactly when the declaration's key has no secret among
    the fetched ones, or the secret the key resolves to has absent or empty
    TLS certificate bytes, or its bytes are present and fail to decode; a
    skip adds one to the count and leaves the AffectedSet as it was; and
    the loop goes on over the whole list, counting every certificate it
    does not store.  None of these conditions ends the run: once both lists
    are fetched, a run whose list holds such a certificate reaches the
    report, where the certificate is counted, and then returns success or,
    with the renew flag and a non-empty AffectedSet, renews the entries of
    the AffectedSet, of which the skipped certificate is none; an error it
    returns is the error of the renewal of an entry.  The decoder is assumed
    to reject the empty input. *)
Theorem correlator_skips (secrets : list Secret) (crt : Certificate)
        (a : Analysis) :
  (∀ c, pki_DecodeX509CertificateBytes [] ≠ inr c) →
  let sm := makeSecretsMap secrets in
  let key := secretKey (crt_Namespace crt) (crt_SecretName crt) in
  (is_skip (resolve sm crt) = true ↔
     (∀ s, s ∈ secrets → secretKey (sec_Namespace s) (sec_Name s) ≠ key)
     ∨ ∃ s, sm !! key = Some s ∧ (bytes_absent_or_empty s ∨ bytes_undecodable s))
  ∧ (is_skip (resolve sm crt) = true →
     serialsToCertificates (checkCertificate sm a crt) = serialsToCertificates a
     ∧ skipped (checkCertificate sm a crt) = S (skipped a))
  ∧ (issuerName = "" →
     skipped (checkCertificate sm a crt) = S (skipped a) ↔
     is_skip (resolve sm crt) = true)
  ∧ (∀ certs,
       skipped (analyse sm certs)
       = length (List.filter (fun c => bool_decide (affectedKey sm c = None)) certs)
       ∧ dom (serialsToCertificates (analyse sm certs))
         = list_to_set (omap (affectedKey sm) certs))
  ∧ (∀ (st : Proc W) (w1 w2 w3 w4 : W) (certs : list Certificate),
       apiutil_NewDynamicRESTMapper (world st) = (None, w1) →
       client_New w1 = (None, w2) →
       List_Certificates w2 = (inr certs, w3) →
       List_Secrets w3 = (inr secrets, w4) →
       crt ∈ certs →
       is_skip (resolve sm crt) = true →
       let m := serialsToCertificates (analyse sm certs) in
       (1 ≤ skipped (analyse sm certs))%nat
       ∧ (∀ sn, m !! sn ≠ Some crt)
       ∧ (renew = false ∨ size m = 0%nat →
          run st = (Val None, reportOnly st certs secrets w4))
       ∧ (renew = true → size m ≠ 0%nat →
          run st = renewAll (map_range 150 m) (renewalStart st certs secrets w4))
       ∧ (∀ e st', run st = (Val (Some e), st') →
            ∃ sn cert st1 st2,
              m !! sn = Some cert ∧ cert ≠ crt
              ∧ renewCertificate cert st1 = (Val (Some e), st2))).
Proof.
  intros Hempty sm key.
  assert (is_skip (resolve sm crt) = true → affectedKey sm crt = None) as Hnokey.
  { unfold affectedKey. by destruct (resolve sm crt). }
  split; [split|].
  - (* a skip is one of the three cases *)
    unfold resolve. fold key. fold sm. intros Hskip.
    destruct (sm !! key) as [s|] eqn:Hs.
    2:{ left. by apply makeSecretsMap_None. }
    right. exists s. split; [done|].
    unfold bytes_absent_or_empty, bytes_undecodable, go_lookup.
    destruct (sec_Data s) as [data|]; [|by left].
    destruct (data !! TLSCertKey) as [[pem|]|]; [|by left|by left].
    destruct pem as [|b pem]; [by left|]. right.
    destruct (pki_DecodeX509CertificateBytes (b :: pem)) as [e|c] eqn:Hc; [|done].
    by exists (b :: pem), e.
  - (* each of the three cases is a skip *)
    unfold resolve. fold key. fold sm. intros [Hnone|(s & Hs & Hbytes)].
    { apply makeSecretsMap_None in Hnone. fold sm in Hnone. by rewrite Hnone. }
    rewrite Hs. unfold bytes_absent_or_empty, bytes_undecodable, go_lookup in Hbytes.
    destruct (sec_Data s) as [data|]; [|done].
    destruct (data !! TLSCertKey) as [[pem|]|]; [|done|done].
    destruct Hbytes as [Habs|(bs & e & [= <-] & _ & Hdec)].
    + destruct pem; [|done].
      destruct (pki_DecodeX509CertificateBytes []) as [e|c] eqn:Hc; [done|].
      by destruct (Hempty c).
    + by rewrite Hdec.
  - split; [|split; [|split]].
    + (* the effect of a skip on the loop variables *)
      intros Hskip. destruct (checkCertificate_effect sm a crt) as [-> ->].
      by rewrite (Hnokey Hskip).
    + (* without a filter nothing else is counted *)
      intros Hf. destruct (checkCertificate_effect sm a crt) as [_ ->].
      rewrite affectedKey_no_filter by done. unfold decodedSerial.
      destruct (resolve sm crt); try done. split; [lia|done].
    + (* the loop accounts for the whole list *)
      intros certs. unfold analyse.
      destruct (analysis_fold sm certs (mkAnalysis ∅ 0%nat [])) as [-> ->].
      split; [done|].
      rewrite place_dom. cbn. rewrite dom_empty_L. by rewrite (left_id_L ∅ (∪)).
    + (* the run goes on *)
      intros st w1 w2 w3 w4 certs Hm Hc Hl1 Hl2 Hin Hskip m.
      assert (∀ sn, m !! sn ≠ Some crt) as Hout.
      { intros sn Hsn. unfold m, analyse in Hsn.
        destruct (analysis_fold sm certs (mkAnalysis ∅ 0%nat [])) as [Heq _].
        rewrite Heq in Hsn. apply place_lookup in Hsn as [[_ Hk]|Hsn].
        - rewrite (Hnokey Hskip) in Hk. done.
        - cbn [serialsToCertificates] in Hsn. by rewrite lookup_empty in Hsn. }
      split; [|split; [done|split; [|split]]].
      * unfold analyse.
        destruct (analysis_fold sm certs (mkAnalysis ∅ 0%nat [])) as [_ ->].
        cbn [skipped].
        assert (In crt (List.filter
                          (fun c => bool_decide (affectedKey sm c = None)) certs)) as Hf.
        { apply filter_In. split; [by apply list_elem_of_In|].
          apply bool_decide_eq_true_2. by apply Hnokey. }
        destruct (List.filter _ certs); [destruct Hf|cbn; lia].
      * intros Hdry. by apply (run_reports_only st w1 w2 w3 w4).
      * intros Hr Hsize. by apply (run_reaches_renewals st w1 w2 w3 w4).
      * intros e st' Hrun.
        destruct (decide (size m = 0%nat)) as [Hz|Hz].
        { rewrite (run_reports_only st w1 w2 w3 w4 certs secrets) in Hrun by auto.
          done. }
        destruct renew eqn:Hr.
        2:{ rewrite (run_reports_only st w1 w2 w3 w4 certs secrets) in Hrun by auto.
            done. }
        rewrite (run_reaches_renewals st w1 w2 w3 w4 certs secrets) in Hrun by done.
        apply renewAll_error_origin in Hrun as (sn & cert & st1 & st2 & Hentry & Hfail).
        fold sm in Hentry. fold m in Hentry.
        rewrite (map_range_perm _ 150 m) in Hentry.
        apply elem_of_map_to_list in Hentry.
        exists sn, cert, st1, st2. split; [done|]. split; [|done].
        intros ->. by apply (Hout sn).
Qed.
End RenewalFacts.

(** ** The program on concrete clusters *)

Section Concrete.
Import Fake.

Local Abbreviation analyse_with flags := (@analyse library flags) (only parsing).
Local Abbreviation run_with flags := (@run World cluster library flags) (only parsing).
Local Abbreviation renew_one := (@renewCertificate World cluster library) (only parsing).

(** C1, at the failing input: the filter is "letsencrypt-prod" and the
    secret of the only certificate carries no issuer annotation; the
    certificate is stored in the AffectedSet all the same and nothing is
    counted as skipped. *)
Theorem unannotated_secret_passes_filter :
  @issuerName prod_filter = "letsencrypt-prod"
  ∧ go_lookup (sec_Annotations plain_tls) IssuerNameAnnotationKey = None
  ∧ serialsToCertificates
      (analyse_with prod_filter (makeSecretsMap [plain_tls]) [web]) !! "7"
    = Some web
  ∧ skipped (analyse_with prod_filter (makeSecretsMap [plain_tls]) [web]) = 0%nat.
Proof. repeat split; vm_compute; reflexivity. Qed.

(** The filter at work on annotated secrets: two of three certificates
    carry the filter's issuer, the third is counted as skipped. *)
Example filter_keeps_matching_issuer :
  let a := analyse_with prod_filter
                        (makeSecretsMap [web_tls; api_tls; db_tls]) [web; api; db] in
  dom (serialsToCertificates a) = {[ "7"; "9" ]} ∧ skipped a = 1%nat.
Proof. split; vm_compute; reflexivity. Qed.

(** C2, refuted as stated: [web] has the in-progress request [web_pending]
    in its namespace at CancelStale time, yet the renewal deletes the
    completed request [web_done] that is listed before it, and the store
    is not what it was. *)
Lemma in_progress_does_not_stop_deletions :
  let st := start (idle [web] [web_tls] [web_done; web_pending]) in
  (web_pending ∈ requests (world st)
   ∧ metav1_IsControlledBy web_pending web = true
   ∧ go_len (req_StatusCertificate web_pending) = 0%nat)
  ∧ fst (renew_one web st) = Val None
  ∧ List.filter is_delete (calls (snd (renew_one web st))) = [CallDelete web_done]
  ∧ requests (world (snd (renew_one web st))) ≠ requests (world st).
Proof.
  repeat split; try (vm_compute; reflexivity).
  - right. left.
  - vm_compute. discriminate.
Qed.

Lemma in_progress_request_blocks_renewal_witness :
  let st := start (idle [web] [web_tls] [web_done; web_pending]) in
  ∃ before req after deleted err w'' st',
    [web_done; web_pending] = (before ++ req :: after)%list
    ∧ metav1_IsControlledBy req web = true
    ∧ go_len (req_StatusCertificate req) = 0%nat
    ∧ Forall (fun d => completed d = true) (@ownedBy library web before)
    ∧ @deletions World cluster (@ownedBy library web before) (tick (world st))
      = (deleted, err, w'')
    ∧ renew_one web st = (Val err, st')
    ∧ world st' = w''
    ∧ calls st' = ([] ++ CallListRequests "prod" :: map CallDelete deleted)%list
    ∧ deleted `prefix_of` @ownedBy library web before
    ∧ (err = None →
       deleted = @ownedBy library web before
       ∧ last (output st') = Some (LogInProgress (req_Namespace req) (req_Name req))).
Proof.
  intros st.
  assert (List_CertificateRequests "prod" (world st)
          = (inr [web_done; web_pending], tick (world st))) as Hlist.
  { vm_compute. reflexivity. }
  assert (∃ req, req ∈ [web_done; web_pending]
                 ∧ metav1_IsControlledBy req web = true
                 ∧ go_len (req_StatusCertificate req) = 0%nat) as Hprog.
  { exists web_pending. split; [right; left|]. split; vm_compute; reflexivity. }
  exact (proj1 (@in_progress_request_blocks_renewal World cluster library web st
                  [web_done; web_pending] (tick (world st)) Hlist Hprog)).
Defined.

(** The same renewal on the scripted cluster: one deletion, then success. *)
Example completed_request_deleted_before_in_progress :
  let st := start (idle [web] [web_tls] [web_done; web_pending]) in
  fst (renew_one web st) = Val None
  ∧ calls (snd (renew_one web st)) = [CallListRequests "prod"; CallDelete web_done]
  ∧ requests (world (snd (renew_one web st))) = [web_pending].
Proof. repeat split; vm_compute; reflexivity. Qed.

(** An in-progress request listed first: nothing is deleted. *)
Example in_progress_first_is_noop :
  let st := start (idle [web] [web_tls] [web_pending; web_done]) in
  renew_one web st
  = (Val None,
     mkProc (tick (world st)) [CallListRequests "prod"]
            [LogInProgress "prod" "web-2"]).
Proof. vm_compute. reflexivity. Qed.

(** A deletion that fails before the in-progress request is reached: the
    renewal stops there and returns the error of the deletion. *)
Example failed_deletion_before_in_progress :
  let st := start (mkWorld [web] [web_tls] [web_done; web_pending] 0 [] 0 [1%nat]) in
  fst (renew_one web st) = Val (Some (Err "injected failure"))
  ∧ calls (snd (renew_one web st)) = [CallListRequests "prod"; CallDelete web_done]
  ∧ requests (world (snd (renew_one web st))) = [web_done; web_pending].
Proof. repeat split; vm_compute; reflexivity. Qed.

(** C3, refuted as stated: with no filter, two declarations whose secrets
    hold the same certificate are both Correlator successes, but the
    AffectedSet has one entry. *)
Lemma shared_serial_counts_once :
  let sm := makeSecretsMap [web_tls; mirror_tls] in
  @issuerName no_filter = ""
  ∧ length (omap (@decodedSerial library sm) [web; mirror]) = 2%nat
  ∧ size (serialsToCertificates (analyse_with no_filter sm [web; mirror])) = 1%nat
  ∧ serialsToCertificates (analyse_with no_filter sm [web; mirror]) !! "7" = Some mirror.
Proof. repeat split; vm_compute; reflexivity. Qed.

Lemma empty_filter_affects_decodable_witness :
  let sm := makeSecretsMap [web_tls; api_tls; db_tls] in
  let m := serialsToCertificates (analyse_with no_filter sm [web; api; db]) in
  size m = 3%nat ∧ m !! "9" = Some api.
Proof.
  intros sm m.
  destruct (@empty_filter_affects_decodable library no_filter
              [web_tls; api_tls; db_tls] [web; api; db] eq_refl)
    as (_ & _ & _ & Hdistinct).
  destruct Hdistinct as [Hsize Hown].
  - vm_compute. repeat constructor; intros H;
      repeat (apply elem_of_cons in H as [H|H]; [discriminate|]);
      by apply elem_of_nil in H.
  - split; [exact Hsize|]. apply Hown; [right; left|vm_compute; reflexivity].
Defined.


(** The request appears one nanosecond after the ceiling: all 60 polls are
    quiet and the wait times out. *)
Example await_request_times_out :
  fst (@awaitRequest World cluster library web
                     (start (answering (60 * time_Second + 1))))
  = Val (Some ErrWaitTimeout)
  ∧ calls (snd (@awaitRequest World cluster library web
                              (start (answering (60 * time_Second + 1)))))
    = replicate 60 (CallListRequests "prod").
Proof. split; vm_compute; reflexivity. Qed.

(** The request appears one interval before the ceiling. *)
Example await_request_just_before_ceiling :
  fst (@awaitRequest World cluster library web (start (answering (59 * time_Second))))
  = Val None
  ∧ calls (snd (@awaitRequest World cluster library web
                              (start (answering (59 * time_Second)))))
    = replicate 59 (CallListRequests "prod").
Proof. split; vm_compute; reflexivity. Qed.

Lemma first_renewal_failure_aborts_run_witness :
  fst (run_with no_filter_renew (start cluster3)) = Val (Some ErrWaitTimeout)
  ∧ List.filter is_update (calls (snd (run_with no_filter_renew (start cluster3))))
    = [CallUpdate (tls_secret "prod" "web-tls"
                              (issued_by "force-renewal-triggered") (pem Byte.x07))].
Proof.
  pose (w := tick (tick cluster3)).
  pose (st1 := @renewalStart World cluster library no_filter_renew
                             (start cluster3) [web; api; db]
                             [web_tls; api_tls; db_tls] w).
  pose (st1' := mkProc (world st1) (calls st1)
                       (output st1 ++ [LogTriggering "prod" "web"])%list).
  rewrite (@first_renewal_failure_aborts_run World cluster library no_filter_renew
             (start cluster3) cluster3 cluster3 (tick cluster3) w
             [web; api; db] [web_tls; api_tls; db_tls]
             [] [("9", api); ("11", db)] "7" web ErrWaitTimeout
             st1 (snd (renew_one web st1'))).
  - split; vm_compute; reflexivity.
  - reflexivity.
  - reflexivity.
  - reflexivity.
  - reflexivity.
  - reflexivity.
  - vm_compute. reflexivity.
  - reflexivity.
  - vm_compute. reflexivity.
Defined.

Lemma fetch_error_aborts_run_witness :
  let w := mkWorld [web] [web_tls] [] 0 [] 0 [1%nat] in
  run_with no_filter_renew (start w)
  = (Val (Some (Errorf "error listing Secret resources" (Err "injected failure"))),
     mkProc (tick (tick w)) [CallListCertificates; CallListSecrets] [LogFound 1]).
Proof.
  intros w.
  destruct (@fetch_error_aborts_run World cluster library no_filter_renew
              (start w) w w eq_refl eq_refl) as [_ Hsecrets].
  apply (Hsecrets [web] (tick w)); reflexivity.
Defined.

Example certificate_list_error_aborts_run :
  let w := mkWorld [web] [web_tls] [] 0 [] 0 [0%nat] in
  run_with no_filter_renew (start w)
  = (Val (Some (Errorf "error listing Certificate resources" (Err "injected failure"))),
     mkProc (tick w) [CallListCertificates] []).
Proof. vm_compute. reflexivity. Qed.

Lemma correlator_skips_witness :
  let sm := makeSecretsMap [web_tls] in
  let a := analyse_with no_filter sm [web] in
  let st := start (idle [web; api] [web_tls] []) in
  (serialsToCertificates (@checkCertificate library no_filter sm a api)
   = serialsToCertificates a
   ∧ skipped (@checkCertificate library no_filter sm a api) = 1%nat)
  ∧ run_with no_filter st
    = (Val None,
       @reportOnly World library no_filter st [web; api] [web_tls]
                   (tick (tick (world st)))).
Proof.
  intros sm a st.
  assert (∀ c, Fake.decode [] ≠ inr c) as Hempty by (intros c; discriminate).
  assert (@is_skip (@resolve library sm api) = true) as Hskip.
  { vm_compute. reflexivity. }
  destruct (@correlator_skips World cluster library no_filter [web_tls] api a Hempty)
    as (_ & Heffect & _ & _ & Hrun).
  split; [by apply Heffect|].
  destruct (Hrun st (world st) (world st) (tick (world st)) (tick (tick (world st)))
                 [web; api] eq_refl eq_refl eq_refl eq_refl)
    as (_ & _ & Hreport & _).
  - right. left.
  - exact Hskip.
  - apply Hreport. by left.
Defined.

(** A skipped certificate does not keep the run from renewing the next
    one: [api] has no secret and is counted, [web] is renewed. *)
Example skip_then_renew :
  let w := mkWorld [api; web] [web_tls] [] 0 [(3 * time_Second, web_pending)] 0 [] in
  let st' := snd (run_with no_filter_renew (start w)) in
  fst (run_with no_filter_renew (start w)) = Val None
  ∧ LogSkipped 1 ∈ output st'
  ∧ LogAffected 1 ∈ output st'
  ∧ List.filter is_update (calls st')
    = [CallUpdate (tls_secret "prod" "web-tls"
                              (issued_by "force-renewal-triggered") (pem Byte.x07))].
Proof.
  repeat split; try (vm_compute; reflexivity);
    apply list_elem_of_In; vm_compute; tauto.
Qed.

Lemma affected_entry_is_backed_witness :
  web ∈ [web; api]
  ∧ ∃ secret certPEM cert,
      secret ∈ [web_tls; db_tls]
      ∧ secretKey (sec_Namespace secret) (sec_Name secret) = "prod/web-tls"
      ∧ makeSecretsMap [web_tls; db_tls] !! "prod/web-tls" = Some secret
      ∧ go_lookup (sec_Data secret) TLSCertKey = Some (Some certPEM)
      ∧ Fake.decode certPEM = inr cert
      ∧ BigInt_String (SerialNumber cert) = "7"
      ∧ (slash_free (sec_Namespace secret) = true →
         slash_free "prod" = true →
         sec_Namespace secret = "prod" ∧ sec_Name secret = "web-tls").
Proof.
  apply (@affected_entry_is_backed library no_filter
           [web_tls; db_tls] [web; api] "7" web).
  vm_compute. reflexivity.
Defined.

Lemma dry_run_mutates_nothing_witness :
  let st := start cluster3 in
  run_with no_filter st
  = (Val None,
     @reportOnly World library no_filter st [web; api; db]
                 [web_tls; api_tls; db_tls] (tick (tick cluster3))).
Proof.
  intros st.
  destruct (@dry_run_mutates_nothing World cluster library no_filter st eq_refl)
    as [_ Hreport].
  apply (Hreport cluster3 cluster3 (tick cluster3)); reflexivity.
Defined.

(** The end-to-end scenarios of the specification. *)

(** A: three certificates, three valid secrets, no filter, no renewal. *)
Example scenario_A :
  let st' := snd (run_with no_filter (start cluster3)) in
  fst (run_with no_filter (start cluster3)) = Val None
  ∧ List.filter is_mutation (calls st') = []
  ∧ LogSkipped 0 ∈ output st' ∧ LogAffected 3 ∈ output st'.
Proof.
  repeat split; try (vm_compute; reflexivity);
    apply list_elem_of_In; vm_compute; tauto.
Qed.

(** B: as A, but one secret lacks the TLS certificate entry. *)
Example scenario_B :
  let w := idle [web; api; db]
                [web_tls; api_tls; mkSecret "prod" "db-tls" None (Some ∅)] [] in
  let st' := snd (run_with no_filter (start w)) in
  LogSkipped 1 ∈ output st' ∧ LogAffected 2 ∈ output st'.
Proof. split; apply list_elem_of_In; vm_compute; tauto. Qed.

(** D: renewal requested, the only affected certificate has an
    in-progress request: nothing is mutated and the run succeeds. *)
Example scenario_D :
  let w := idle [web] [web_tls] [web_pending] in
  fst (run_with no_filter_renew (start w)) = Val None
  ∧ List.filter is_mutation (calls (snd (run_with no_filter_renew (start w)))) = [].
Proof. split; vm_compute; reflexivity. Qed.

(** A successful forced renewal: the completed request is deleted, the
    secret is annotated, and the controller's new request is seen at the
    third poll. *)
Example forced_renewal :
  let w := mkWorld [web] [web_tls] [web_done] 0
                   [(5 * time_Second, web_pending)] 0 [] in
  fst (run_with no_filter_renew (start w)) = Val None
  ∧ calls (snd (run_with no_filter_renew (start w)))
    = [CallListCertificates; CallListSecrets; CallListRequests "prod";
       CallDelete web_done; CallGet "prod" "web-tls";
       CallUpdate (tls_secret "prod" "web-tls"
                              (issued_by "force-renewal-triggered") (pem Byte.x07));
       CallListRequests "prod"; CallListRequests "prod"; CallListRequests "prod"].
Proof. split; vm_compute; reflexivity. Qed.

(** A secret without annotations is annotated without a fault. *)
Example annotate_nil_annotations :
  setIssuerAnnotation plain_tls
  = Some (tls_secret "prod" "web-tls"
                     (issued_by "force-renewal-triggered") (pem Byte.x07)).
Proof. vm_compute. reflexivity. Qed.
End Concrete.

(** * Further properties *)

(** ** The secrets map *)

Lemma hasKey_filter_app (k : string) (before after : list Secret) (s : Secret) :
  hasKey k s = true →
  (∀ s', s' ∈ after → secretKeyOf s' ≠ k) →
  last (List.filter (hasKey k) (before ++ s :: after)) = Some s.
Proof.
  intros Hs Hafter. rewrite List.filter_app. cbn [List.filter]. rewrite Hs.
  assert (List.filter (hasKey k) after = []) as ->.
  { induction after as [|s' after IH]; [done|]. cbn.
    unfold hasKey at 1. rewrite bool_decide_eq_false_2.
    - apply IH. intros s'' Hs''. apply Hafter. by right.
    - apply (Hafter s'). by left. }
  apply last_snoc.
Qed.

Lemma makeSecretsMap_dom (secrets : list Secret) (m : gmap string Secret) :
  dom (fold_left (fun m s => <[secretKey (sec_Namespace s) (sec_Name s) := s]> m)
                 secrets m)
  = dom m ∪ list_to_set (secretKeyOf <$> secrets).
Proof.
  revert m. induction secrets as [|s secrets IH]; intros m; cbn [fold_left fmap list_fmap].
  { by rewrite list_to_set_nil, (right_id_L ∅ (∪)). }
  rewrite IH, dom_insert_L, list_to_set_cons. unfold secretKeyOf at 2.
  rewrite (comm_L (∪) {[_]} (dom m)). by rewrite (assoc_L (∪)).
Qed.

(** X1: what a lookup in the secrets map returns.  A key with no fetched
    secret has no entry; an entry is always a fetched secret stored under
    its own namespace/name key; and when several fetched secrets share a
    key, the entry is the last of them in list order. *)
Theorem makeSecretsMap_lookup (secrets : list Secret) :
  (∀ k, makeSecretsMap secrets !! k = None ↔
        ∀ s, s ∈ secrets → secretKeyOf s ≠ k)
  ∧ (∀ k s, makeSecretsMap secrets !! k = Some s →
            s ∈ secrets ∧ secretKeyOf s = k)
  ∧ (∀ before s after,
        secrets = (before ++ s :: after)%list →
        (∀ s', s' ∈ after → secretKeyOf s' ≠ secretKeyOf s) →
        makeSecretsMap secrets !! secretKeyOf s = Some s).
Proof.
  repeat split.
  - by apply makeSecretsMap_None.
  - by apply makeSecretsMap_None.
  - by apply (makeSecretsMap_Some secrets k s).
  - by apply (makeSecretsMap_Some secrets k s).
  - intros before s after -> Hafter. unfold makeSecretsMap.
    rewrite makeSecretsMap_fold, hasKey_filter_app; [done| |done].
    unfold hasKey. by apply bool_decide_eq_true_2.
Qed.

Lemma makeSecretsMap_distinct_lookup (secrets : list Secret) (k : string) (s : Secret) :
  NoDup (secretKeyOf <$> secrets) →
  makeSecretsMap secrets !! k = Some s ↔ s ∈ secrets ∧ secretKeyOf s = k.
Proof.
  intros Hnd. split; [apply makeSecretsMap_Some|].
  intros [Hin <-]. apply list_elem_of_split in Hin as (before & after & ->).
  unfold makeSecretsMap. rewrite makeSecretsMap_fold, hasKey_filter_app; [done| |].
  - unfold hasKey. by apply bool_decide_eq_true_2.
  - intros s' Hs' Heq. rewrite fmap_app, fmap_cons in Hnd.
    apply NoDup_app in Hnd as (_ & _ & Hnd). apply NoDup_cons in Hnd as [Hfresh _].
    apply Hfresh. rewrite <- Heq. apply list_elem_of_fmap. by exists s'.
Qed.

(** X2: when the fetched secrets have pairwise distinct namespace/name
    keys, every one of them is found under its own key, the map has as many
    entries as there are secrets, and the map does not depend on the order
    in which the secrets were listed. *)
Theorem makeSecretsMap_distinct_keys (secrets : list Secret) :
  NoDup (secretKeyOf <$> secrets) →
  (∀ s, s ∈ secrets → makeSecretsMap secrets !! secretKeyOf s = Some s)
  ∧ size (makeSecretsMap secrets) = length secrets
  ∧ (∀ secrets', secrets' ≡ₚ secrets →
                 makeSecretsMap secrets' = makeSecretsMap secrets).
Proof.
  intros Hnd. split; [|split].
  - intros s Hs. by apply makeSecretsMap_distinct_lookup.
  - rewrite <- size_dom. unfold makeSecretsMap.
    rewrite makeSecretsMap_dom, dom_empty_L, (left_id_L ∅ (∪)).
    rewrite size_list_to_set by done. by rewrite length_fmap.
  - intros secrets' Hperm. apply map_eq. intros k.
    assert (NoDup (secretKeyOf <$> secrets')) as Hnd' by by rewrite Hperm.
    destruct (makeSecretsMap secrets !! k) as [s|] eqn:Hk.
    + apply makeSecretsMap_distinct_lookup in Hk as [Hin Hkey]; [|done].
      apply makeSecretsMap_distinct_lookup; [done|]. by rewrite Hperm.
    + apply makeSecretsMap_None. intros s Hs.
      rewrite makeSecretsMap_None in Hk. apply Hk. by rewrite <- Hperm.
Qed.

(** ** The analysis loop *)

Section AnalysisReport.
Context {lib : Library} {flags : Flags}.

Lemma stored_or_skipped (sm : gmap string Secret) (certs : list Certificate) :
  (length (List.filter (fun c => bool_decide (affectedKey sm c = None)) certs)
   + length (omap (affectedKey sm) certs))%nat
  = length certs.
Proof.
  induction certs as [|c certs IH]; [done|]. cbn [List.filter omap list_omap].
  destruct (affectedKey sm c) as [sn|]; case_bool_decide; try done; cbn; lia.
Qed.

Lemma length_remove_dups_le (l : list string) :
  (length (remove_dups l) ≤ length l)%nat.
Proof.
  induction l as [|x l IH]; [done|]. cbn.
  destruct (decide_rel elem_of x l); cbn; lia.
Qed.

(** X3: the two counts [run] reports account for the certificates found.
    Every certificate is either counted as skipped or stored in the
    AffectedSet, so skipped plus affected never exceeds the number of
    certificates; the sum falls short of it only when stored certificates
    share a serial number, and equals it when the stored serial numbers are
    pairwise distinct. *)
Theorem analysis_accounting (secrets : list Secret) (certs : list Certificate) :
  let sm := makeSecretsMap secrets in
  let a := analyse sm certs in
  (skipped a + length (omap (affectedKey sm) certs))%nat = length certs
  ∧ (skipped a + size (serialsToCertificates a) ≤ length certs)%nat
  ∧ (NoDup (omap (affectedKey sm) certs) →
     (skipped a + size (serialsToCertificates a))%nat = length certs).
Proof.
  intros sm a.
  destruct (analysis_fold sm certs (mkAnalysis ∅ 0%nat [])) as [Hmap Hskip].
  fold (analyse sm certs) in Hmap, Hskip. fold a in Hmap, Hskip.
  cbn [skipped serialsToCertificates] in Hmap, Hskip.
  assert (size (serialsToCertificates a)
          = length (remove_dups (omap (affectedKey sm) certs))) as Hsize.
  { rewrite <- size_dom, Hmap, place_dom, dom_empty_L, (left_id_L ∅ (∪)).
    apply size_list_to_set_remove_dups. }
  pose proof (stored_or_skipped sm certs) as Hsum.
  pose proof (length_remove_dups_le (omap (affectedKey sm) certs)) as Hle.
  split; [lia|]. split; [lia|].
  intros Hnd. rewrite Hsize, remove_dups_NoDup by done. lia.
Qed.

(** X4: with a filter set, every entry of the AffectedSet has a backing
    secret in the secrets map whose issuer-name annotation is either absent
    or equal to the filter: a secret annotated with another issuer never
    gets its certificate into the set. *)
Theorem affected_entry_passes_filter (secrets : list Secret)
        (certs : list Certificate) (sn : string) (crt : Certificate) :
  issuerName ≠ "" →
  serialsToCertificates (analyse (makeSecretsMap secrets) certs) !! sn = Some crt →
  ∃ secret,
    makeSecretsMap secrets !! secretKey (crt_Namespace crt) (crt_SecretName crt)
    = Some secret
    ∧ (go_lookup (sec_Annotations secret) IssuerNameAnnotationKey = None
       ∨ go_lookup (sec_Annotations secret) IssuerNameAnnotationKey
         = Some issuerName).
Proof.
  intros Hset Hm. unfold analyse in Hm.
  destruct (analysis_fold (makeSecretsMap secrets) certs (mkAnalysis ∅ 0%nat []))
    as [Heq _].
  rewrite Heq in Hm. apply place_lookup in Hm as [[_ Hk]|Hm].
  2:{ cbn [serialsToCertificates] in Hm. by rewrite lookup_empty in Hm. }
  apply affectedKey_Some in Hk as (secret & cert & Hres & Hpass & _).
  apply resolve_Decoded in Hres as (pem & Hsec & _ & _).
  exists secret. split; [done|].
  unfold passesFilter in Hpass. rewrite decide_True in Hpass by done.
  unfold IssuerNameAnnotationKey.
  destruct (go_lookup _ _) as [value|]; [|by left].
  apply bool_decide_eq_true in Hpass as ->. by right.
Qed.

(** X5: the outcome of the filter loop does not depend on the order in
    which the annotations are visited (their keys are distinct, as in any
    map), and a mismatch is counted once: the count grows by at most one. *)
Theorem filter_order_independent (entries entries' : list (string * string))
        (skip : bool) (k : nat) :
  NoDup (entries.*1) →
  entries ≡ₚ entries' →
  filterAnnotations entries skip k = filterAnnotations entries' skip k
  ∧ (k ≤ snd (filterAnnotations entries skip k) ≤ S k)%nat.
Proof.
  intros Hnd Hperm.
  assert (NoDup (entries'.*1)) as Hnd' by by rewrite <- Hperm.
  destruct (decide ("cert-manager.io/issuer-name" ∈ entries.*1)) as [Hin|Hout].
  - apply list_elem_of_fmap in Hin as ([key value] & Hkey & Hin). cbn in Hkey. subst key.
    rewrite (filterAnnotations_present entries value) by done.
    rewrite (filterAnnotations_present entries' value) by (by rewrite <- ?Hperm).
    split; [done|]. destruct (decide (value ≠ issuerName)); cbn; lia.
  - assert (∀ v, ("cert-manager.io/issuer-name", v) ∉ entries) as Hno.
    { intros v Hv. apply Hout. apply list_elem_of_fmap.
      by exists ("cert-manager.io/issuer-name", v). }
    rewrite (filterAnnotations_absent entries) by done.
    rewrite (filterAnnotations_absent entries').
    + split; [done|]. cbn. lia.
    + intros v Hv. apply (Hno v). by rewrite Hperm.
Qed.

Lemma checking_lines_fold (sm : gmap string Secret) (certs : list Certificate)
      (a : Analysis) :
  List.filter is_checking (logged (fold_left (checkCertificate sm) certs a))
  = (List.filter is_checking (logged a) ++ (checkingLine <$> certs))%list.
Proof.
  revert a. induction certs as [|crt certs IH]; intros a; cbn [fold_left fmap list_fmap].
  { by rewrite app_nil_r. }
  rewrite IH. destruct (checkCertificate_logs sm a crt) as (lines & -> & Hlines).
  rewrite List.filter_app. cbn [List.filter is_checking].
  assert (List.filter is_checking lines = []) as ->.
  { induction Hlines as [|l lines Hl _ IHl]; [done|]. cbn. by destruct l. }
  by rewrite <- app_assoc.
Qed.

(** X6: the analysis starts on every certificate of the list, once and in
    list order, whatever happens to the certificates before it: the
    "Checking" lines of its log are those of the list. *)
Theorem analysis_checks_every_certificate (sm : gmap string Secret)
        (certs : list Certificate) :
  List.filter is_checking (logged (analyse sm certs)) = checkingLine <$> certs.
Proof. unfold analyse. by rewrite checking_lines_fold. Qed.
End AnalysisReport.

(** ** Renewal of one certificate *)

Section RenewalCalls.
Context {W : Type} {cl : Cluster W} {lib : Library} {flags : Flags}.

(** X7: the write of lines 196-199 changes the issuer-name annotation and
    nothing else: the namespace, the name, the data and every other
    annotation of the secret are as they were read; and writing twice is
    writing once. *)
Theorem setIssuerAnnotation_only_issuer (secret : Secret) :
  ∃ secret',
    setIssuerAnnotation secret = Some secret'
    ∧ sec_Namespace secret' = sec_Namespace secret
    ∧ sec_Name secret' = sec_Name secret
    ∧ sec_Data secret' = sec_Data secret
    ∧ (∀ k, k ≠ IssuerNameAnnotationKey →
            go_lookup (sec_Annotations secret') k
            = go_lookup (sec_Annotations secret) k)
    ∧ setIssuerAnnotation secret' = Some secret'.
Proof.
  eexists. split; [apply setIssuerAnnotation_Some|].
  cbn [sec_Namespace sec_Name sec_Data sec_Annotations go_lookup].
  do 3 (split; [done|]). split.
  - intros k Hk. rewrite lookup_insert_ne by done.
    destruct (sec_Annotations secret); [done|]. apply lookup_empty.
  - rewrite setIssuerAnnotation_Some.
    cbn [sec_Namespace sec_Name sec_Data sec_Annotations from_option].
    unfold id. by rewrite insert_insert_eq.
Qed.

(** What CancelStale issues: deletions only, of completed requests the
    certificate controls, in listing order; when the loop runs to
    completion, all of them. *)
Lemma cancelStale_calls (items : list CertificateRequest) (cert : Certificate)
      (st : Proc W) :
  ∃ f st' deleted,
    cancelStale items cert st = (Val f, st')
    ∧ calls st' = (calls st ++ map CallDelete deleted)%list
    ∧ deleted `prefix_of` ownedBy cert items
    ∧ Forall (fun d => completed d = true) deleted
    ∧ (f = Completed → deleted = ownedBy cert items).
Proof.
  revert st. induction items as [|r items IH]; intros st.
  { exists Completed, st, []. cbn. rewrite app_nil_r. by repeat split. }
  cbn [cancelStale]. unfold ownedBy. cbn [List.filter]. fold (ownedBy cert items).
  destruct (metav1_IsControlledBy r cert) eqn:Hr; cbn [negb]; [|apply IH].
  destruct (Nat.eqb (go_len (req_StatusCertificate r)) 0) eqn:Hz.
  - eexists _, _, []. split; [reflexivity|]. cbn. rewrite app_nil_r.
    split; [done|]. split; [apply prefix_nil|]. split; [constructor|done].
  - assert (completed r = true) as Hdone by (unfold completed; by rewrite Hz).
    unfold bind at 1, invoke.
    destruct (Delete_CertificateRequest r (world st)) as [[e|] w] eqn:Hd.
    + eexists _, _, [r]. split; [reflexivity|]. cbn.
      split; [done|]. split; [apply prefix_cons, prefix_nil|].
      split; [by repeat constructor|done].
    + cbn.
      destruct (IH (mkProc w (calls st ++ [CallDelete r])
                           (output st ++ [LogDeleted (req_Namespace r) (req_Name r)])))
        as (f & st' & ds & Hrun & Hcalls & Hpre & Hds & Hall).
      exists f, st', (r :: ds). split; [exact Hrun|]. split.
      { rewrite Hcalls. cbn. by rewrite <- app_assoc. }
      split; [by apply prefix_cons|]. split; [by constructor|].
      intros Hf. by rewrite (Hall Hf).
Qed.

Lemma annotate_calls (cert : Certificate) (st : Proc W) :
  ∃ f st',
    annotate cert st = (Val f, st')
    ∧ ((f ≠ Completed
        ∧ calls st' = (calls st ++ [CallGet (crt_Namespace cert) (crt_SecretName cert)])%list)
       ∨ ∃ secret',
           calls st' = (calls st ++ [CallGet (crt_Namespace cert) (crt_SecretName cert);
                                     CallUpdate secret'])%list
           ∧ go_lookup (sec_Annotations secret') IssuerNameAnnotationKey
             = Some "force-renewal-triggered").
Proof.
  unfold annotate, bind at 1, invoke.
  destruct (Get_Secret _ _ (world st)) as [[e|secret] w]; cbn.
  { eexists _, _. split; [reflexivity|]. by left. }
  rewrite setIssuerAnnotation_Some. unfold bind at 1. cbn.
  match goal with |- context [Update_Secret ?s w] =>
    destruct (Update_Secret s w) as [[e|] w'] end; cbn;
    (eexists _, _; split; [reflexivity|]; right; eexists;
     split; [by rewrite <- app_assoc|]; cbn; apply lookup_insert_eq).
Qed.

Lemma pollLoop_calls (cert : Certificate) (m : nat) (st : Proc W) :
  ∃ r st' n,
    pollLoop m time_Second (requestExists cert) st = (Val r, st')
    ∧ (n ≤ m)%nat
    ∧ calls st' = (calls st ++ replicate n (CallListRequests (crt_Namespace cert)))%list.
Proof.
  revert st. induction m as [|m IH]; intros st.
  { exists (Some ErrWaitTimeout), st, 0%nat. cbn. by rewrite app_nil_r. }
  cbn [pollLoop]. unfold bind at 1, sleep. unfold bind at 1, requestExists, bind at 1, invoke.
  cbn [world calls output].
  destruct (List_CertificateRequests _ _) as [[e|items] w]; cbn.
  { eexists _, _, 1%nat. split; [reflexivity|]. split; [lia|done]. }
  destruct (findOwned items cert); cbn.
  { eexists _, _, 1%nat. split; [reflexivity|]. split; [lia|done]. }
  match goal with |- context [pollLoop m _ _ ?s] =>
    destruct (IH s) as (r & st' & n & Hrun & Hn & Hcalls) end.
  exists r, st', (S n). split; [exact Hrun|]. split; [lia|].
  rewrite Hcalls. cbn. by rewrite <- app_assoc.
Qed.

Lemma awaitRequest_calls (cert : Certificate) (st : Proc W) :
  ∃ r st' n,
    awaitRequest cert st = (Val r, st')
    ∧ (n ≤ 60)%nat
    ∧ calls st' = (calls st ++ replicate n (CallListRequests (crt_Namespace cert)))%list.
Proof.
  unfold awaitRequest, wait_Poll. rewrite poll_ceiling.
  unfold bind at 1, log. unfold bind at 1.
  match goal with |- context [pollLoop 60 _ _ ?s] =>
    destruct (pollLoop_calls cert 60 s) as ([e|] & st' & n & -> & Hn & Hcalls) end;
    cbn in *; by eexists _, _, n.
Qed.

(** X8: the client calls of one renewal, in order.  After the listing of
    the namespace come only deletions of completed requests that the
    certificate controls, in listing order.  A secret is read only after
    every controlled request of the listing was found complete and was
    deleted; it is updated at most once, with the sentinel in its issuer
    annotation; and after the update come at most 60 listings of the
    namespace and nothing else. *)
Theorem renewal_call_sequence (cert : Certificate) (st : Proc W) :
  let listing := CallListRequests (crt_Namespace cert) in
  let reading := CallGet (crt_Namespace cert) (crt_SecretName cert) in
  ∃ r st',
    renewCertificate cert st = (Val r, st')
    ∧ match fst (List_CertificateRequests (crt_Namespace cert) (world st)) with
      | inl e => r = Some e ∧ calls st' = (calls st ++ [listing])%list
      | inr items =>
          ∃ deleted tail,
            calls st' = (calls st ++ listing :: map CallDelete deleted ++ tail)%list
            ∧ deleted `prefix_of` ownedBy cert items
            ∧ Forall (fun d => completed d = true) deleted
            ∧ (tail = []
               ∨ (deleted = ownedBy cert items
                  ∧ (tail = [reading]
                     ∨ ∃ secret' n,
                         tail = reading :: CallUpdate secret' :: replicate n listing
                         ∧ (n ≤ 60)%nat
                         ∧ go_lookup (sec_Annotations secret') IssuerNameAnnotationKey
                           = Some "force-renewal-triggered")))
      end.
Proof.
  intros listing reading. unfold renewCertificate, bind at 1, invoke.
  destruct (List_CertificateRequests _ (world st)) as [[e|items] w]; cbn.
  { by eexists _, _. }
  unfold bind at 1.
  match goal with |- context [cancelStale items cert ?s] =>
    destruct (cancelStale_calls items cert s)
      as (f & st1 & ds & -> & Hc1 & Hpre & Hds & Hall) end.
  cbn [calls] in Hc1.
  destruct f as [|r].
  2:{ exists r, st1. split; [done|]. exists ds, [].
      rewrite app_nil_r, Hc1, <- app_assoc. by repeat split; try left. }
  specialize (Hall eq_refl). unfold bind at 1.
  destruct (annotate_calls cert st1) as (f & st2 & -> & Hc2).
  destruct Hc2 as [[Hf Hc2]|(secret' & Hc2 & Hsentinel)].
  - destruct f as [|r]; [done|]. exists r, st2. split; [done|].
    exists ds, [reading]. rewrite Hc2, Hc1, <- !app_assoc.
    split; [done|]. split; [done|]. split; [done|]. right. split; [done|]. by left.
  - destruct f as [|r].
    + destruct (awaitRequest_calls cert st2) as (r & st3 & n & -> & Hn & Hc3).
      exists r, st3. split; [done|].
      exists ds, (reading :: CallUpdate secret' :: replicate n listing).
      rewrite Hc3, Hc2, Hc1, <- !app_assoc.
      split; [done|]. split; [done|]. split; [done|]. right. split; [done|].
      right. by exists secret', n.
    + exists r, st2. split; [done|].
      exists ds, (reading :: CallUpdate secret' :: replicate 0 listing).
      rewrite Hc2, Hc1, <- !app_assoc.
      split; [done|]. split; [done|]. split; [done|]. right. split; [done|].
      right. exists secret', 0%nat. split; [done|]. split; [lia|done].
Qed.

(** *** AwaitRequest *)

Lemma poll_listing_error (cert : Certificate) (st : Proc W) (n : nat) :
  pollSees 0 cert (world st) = None →
  ∃ e,
    fst (pollOnce cert (world st)) = inl e
    ∧ pollLoop (S n) time_Second (requestExists cert) st
      = (Val (Some e),
         mkProc (snd (pollOnce cert (world st)))
                (calls st ++ [CallListRequests (crt_Namespace cert)])
                (output st)).
Proof.
  unfold pollSees. cbn [worldAfterPolls]. intros Hs. cbn [pollLoop].
  unfold bind at 1, sleep. unfold bind at 1, requestExists, bind at 1, invoke.
  cbn [world calls output]. unfold pollOnce in *.
  destruct (List_CertificateRequests _ _) as [[e|items] w']; [|done].
  by exists e.
Qed.

(** X9: a poll whose listing fails ends the wait at once with the error of
    that listing, not with a timeout: after [k] quiet polls, [k < 60], a
    failed listing at poll [k + 1] is returned after exactly [k + 1]
    listings and is the last line logged. *)
Theorem await_request_listing_error (cert : Certificate) (st : Proc W) (k : nat) :
  (k < 60)%nat →
  (∀ j, (j < k)%nat → quietAt j cert (world st)) →
  pollSees k cert (world st) = None →
  ∃ e st',
    awaitRequest cert st = (Val (Some e), st')
    ∧ fst (pollOnce cert (worldAfterPolls k cert (world st))) = inl e
    ∧ calls st'
      = (calls st ++ replicate (S k) (CallListRequests (crt_Namespace cert)))%list
    ∧ last (output st') = Some (LogWaitFailed e).
Proof.
  intros Hk Hq Hfail. unfold awaitRequest, wait_Poll. rewrite poll_ceiling.
  unfold bind at 1, log. unfold bind at 1.
  replace 60%nat with (k + S (59 - k))%nat by lia.
  rewrite poll_quiet_prefix by (cbn [world]; exact Hq).
  match goal with |- context [pollLoop _ _ _ ?s] =>
    destruct (poll_listing_error cert s (59 - k)) as (e & He & ->) end.
  { cbn [world]. exact Hfail. }
  cbn [world] in He. exists e. eexists. split; [reflexivity|]. split; [exact He|].
  cbn [calls output]. split.
  - rewrite <- app_assoc. f_equal.
    change [CallListRequests (crt_Namespace cert)]
      with (replicate 1 (CallListRequests (crt_Namespace cert))).
    rewrite <- replicate_add. f_equal. lia.
  - apply last_snoc.
Qed.
End RenewalCalls.

(** ** [run] and [main] *)

Section RunOutcome.
Context {W : Type} {cl : Cluster W} {lib : Library} {flags : Flags}.

(** X10: when the client cannot be built, [run] returns before any client
    call and logs nothing: the error of the REST mapper as it is, the error
    of the client constructor wrapped as "error building API client". *)
Theorem client_construction_failure (st : Proc W) :
  (∀ e w1,
      apiutil_NewDynamicRESTMapper (world st) = (Some e, w1) →
      run st = (Val (Some e), mkProc w1 (calls st) (output st)))
  ∧ (∀ w1 e w2,
      apiutil_NewDynamicRESTMapper (world st) = (None, w1) →
      client_New w1 = (Some e, w2) →
      run st = (Val (Some (Errorf "error building API client" e)),
                mkProc w2 (calls st) (output st))).
Proof.
  split.
  - intros e w1 Hm. unfold run, bind, lift. by rewrite Hm.
  - intros w1 e w2 Hm Hc. unfold run, bind, lift. rewrite Hm. cbn [world calls output].
    by rewrite Hc.
Qed.

Lemma nothing_stored (sm : gmap string Secret) (certs : list Certificate) :
  (∀ crt, crt ∈ certs → affectedKey sm crt = None) →
  omap (affectedKey sm) certs = [].
Proof.
  induction certs as [|c certs IH]; intros Hnone; [done|]. cbn.
  rewrite (Hnone c) by (by left). apply IH. intros crt Hin. apply Hnone. by right.
Qed.

(** X11: when no certificate of the list is stored (each one is skipped by
    the Correlator or rejected by the filter), every certificate is counted
    as skipped, the AffectedSet is empty, and [run] returns success right
    after the report, with or without [--renew]: no delay, no renewal, no
    mutation. *)
Theorem nothing_affected_returns_early (st : Proc W) (w1 w2 w3 w4 : W)
        (certs : list Certificate) (secrets : list Secret) :
  apiutil_NewDynamicRESTMapper (world st) = (None, w1) →
  client_New w1 = (None, w2) →
  List_Certificates w2 = (inr certs, w3) →
  List_Secrets w3 = (inr secrets, w4) →
  (∀ crt, crt ∈ certs → affectedKey (makeSecretsMap secrets) crt = None) →
  skipped (analyse (makeSecretsMap secrets) certs) = length certs
  ∧ serialsToCertificates (analyse (makeSecretsMap secrets) certs) = ∅
  ∧ run st = (Val None, reportOnly st certs secrets w4)
  ∧ last (output (reportOnly st certs secrets w4)) = Some (LogAffected 0).
Proof.
  intros Hm Hc Hl1 Hl2 Hnone.
  pose proof (nothing_stored _ _ Hnone) as Hno.
  destruct (analysis_fold (makeSecretsMap secrets) certs (mkAnalysis ∅ 0%nat []))
    as [Hmap Hskip].
  fold (analyse (makeSecretsMap secrets) certs) in Hmap, Hskip.
  cbn [skipped serialsToCertificates] in Hmap, Hskip.
  assert (serialsToCertificates (analyse (makeSecretsMap secrets) certs) = ∅) as Hempty.
  { apply dom_empty_iff_L. rewrite Hmap, place_dom, Hno, dom_empty_L.
    by rewrite list_to_set_nil, (left_id_L ∅ (∪)). }
  split.
  { rewrite Hskip. pose proof (stored_or_skipped (makeSecretsMap secrets) certs) as Hsum.
    rewrite Hno in Hsum. cbn in Hsum. lia. }
  split; [done|]. split.
  - apply (run_reports_only st w1 w2 w3 w4); try done.
    right. by rewrite Hempty, map_size_empty.
  - unfold reportOnly. cbn [output]. rewrite Hempty, map_size_empty.
    cbn [Nat.eqb]. by rewrite !last_app.
Qed.

(** *** The renewal log *)

Local Ltac told :=
  cbn [output]; rewrite List.filter_app; cbn [List.filter is_triggering];
  rewrite ?app_nil_r.

Lemma cancelStale_triggering (items : list CertificateRequest) (cert : Certificate)
      (st : Proc W) :
  List.filter is_triggering (output (snd (cancelStale items cert st)))
  = List.filter is_triggering (output st).
Proof.
  revert st. induction items as [|r items IH]; intros st; [done|].
  cbn [cancelStale]. destruct (negb _); [apply IH|].
  destruct (Nat.eqb _ 0).
  { unfold bind, log, ret. cbn [snd]. by told. }
  unfold bind at 1, invoke.
  destruct (Delete_CertificateRequest r (world st)) as [[e|] w].
  - unfold bind, log, ret. cbn [snd]. by told.
  - unfold bind at 1, log. rewrite IH. by told.
Qed.

Lemma annotate_triggering (cert : Certificate) (st : Proc W) :
  List.filter is_triggering (output (snd (annotate cert st)))
  = List.filter is_triggering (output st).
Proof.
  unfold annotate, bind at 1, invoke.
  destruct (Get_Secret _ _ (world st)) as [[e|secret] w].
  { unfold bind, log, ret. cbn [snd]. by told. }
  rewrite setIssuerAnnotation_Some. unfold bind at 1. cbn [world calls output].
  match goal with |- context [Update_Secret ?s w] =>
    destruct (Update_Secret s w) as [[e|] w'] end.
  - unfold bind, log, ret. cbn [snd]. by told.
  - done.
Qed.

Lemma pollLoop_triggering (cert : Certificate) (m : nat) (st : Proc W) :
  List.filter is_triggering
    (output (snd (pollLoop m time_Second (requestExists cert) st)))
  = List.filter is_triggering (output st).
Proof.
  revert st. induction m as [|m IH]; intros st; [done|].
  cbn [pollLoop]. unfold bind at 1, sleep. unfold bind at 1, requestExists, bind at 1, invoke.
  cbn [world calls output].
  destruct (List_CertificateRequests _ _) as [[e|items] w]; [done|].
  destruct (findOwned items cert).
  - unfold bind, log, ret. cbn [snd]. by told.
  - unfold ret at 1. by rewrite IH.
Qed.

Lemma awaitRequest_triggering (cert : Certificate) (st : Proc W) :
  List.filter is_triggering (output (snd (awaitRequest cert st)))
  = List.filter is_triggering (output st).
Proof.
  unfold awaitRequest, wait_Poll, bind at 1, log. unfold bind at 1.
  match goal with |- context [pollLoop ?n _ _ ?s] =>
    pose proof (pollLoop_triggering cert n s) as Hp;
    destruct (pollLoop n time_Second (requestExists cert) s) as [[[e|]|msg] st'] end;
    cbn [snd] in Hp |- *.
  - unfold bind, log, ret. cbn [snd]. told. rewrite Hp. by told.
  - unfold ret. cbn [snd]. rewrite Hp. by told.
  - rewrite Hp. by told.
Qed.

Lemma renewCertificate_triggering (cert : Certificate) (st : Proc W) :
  List.filter is_triggering (output (snd (renewCertificate cert st)))
  = List.filter is_triggering (output st).
Proof.
  unfold renewCertificate, bind at 1, invoke.
  destruct (List_CertificateRequests _ (world st)) as [[e|items] w]; [done|].
  unfold bind at 1.
  match goal with |- context [cancelStale items cert ?s] =>
    pose proof (cancelStale_triggering items cert s) as H1;
    destruct (cancelStale items cert s) as [[[|r]|msg] st1] end;
    cbn [snd output] in H1; [|done|done].
  unfold bind at 1.
  pose proof (annotate_triggering cert st1) as H2.
  destruct (annotate cert st1) as [[[|r]|msg] st2]; cbn [snd] in H2;
    [|by rewrite <- H1|by rewrite <- H1].
  rewrite awaitRequest_triggering. by rewrite H2.
Qed.

(** When the loop returns success, it has started the renewal of every
    entry, once and in order. *)
Lemma renewAll_triggering (entries : list (string * Certificate)) (st st' : Proc W) :
  renewAll entries st = (Val None, st') →
  List.filter is_triggering (output st')
  = (List.filter is_triggering (output st) ++ (triggeringLine <$> entries))%list.
Proof.
  revert st. induction entries as [|[sn cert] entries IH]; intros st.
  { intros [= <-]. by rewrite app_nil_r. }
  rewrite renewAll_cons.
  match goal with |- context [renewCertificate cert ?s] =>
    pose proof (renewCertificate_triggering cert s) as Hr;
    destruct (renewCertificate cert s) as [[[e|]|msg] st1] end; [done| |done].
  intros Hrest. rewrite (IH st1 Hrest). cbn [snd output] in Hr. rewrite Hr.
  rewrite List.filter_app. cbn. by rewrite <- app_assoc.
Qed.

Lemma checkCertificate_triggering (sm : gmap string Secret) (a : Analysis)
      (crt : Certificate) :
  List.filter is_triggering (logged (checkCertificate sm a crt))
  = List.filter is_triggering (logged a).
Proof.
  unfold checkCertificate.
  destruct (resolve sm crt) as [| |e|secret cert]; cbn [say skip_one logged].
  1-3: rewrite <- app_assoc, List.filter_app; cbn; by rewrite app_nil_r.
  destruct (if decide (issuerName ≠ "") then _ else _) as [skip k].
  destruct skip; cbn [negb logged]; rewrite List.filter_app; cbn; by rewrite app_nil_r.
Qed.

Lemma analyse_triggering (sm : gmap string Secret) (certs : list Certificate) :
  List.filter is_triggering (logged (analyse sm certs)) = [].
Proof.
  unfold analyse.
  assert (∀ a, List.filter is_triggering (logged (fold_left (checkCertificate sm) certs a))
               = List.filter is_triggering (logged a)) as Hfold.
  { induction certs as [|c certs IH]; intros a; [done|]. cbn [fold_left].
    rewrite IH. apply checkCertificate_triggering. }
  by rewrite Hfold.
Qed.

Lemma listCandidates_triggering (entries : list (string * Certificate)) :
  List.filter is_triggering (listCandidates entries) = [].
Proof. induction entries as [|[sn cert] entries IH]; [done|]. cbn. apply IH. Qed.

(** X12: when [run] returns success with [--renew], it has started the
    renewal of every entry of the AffectedSet exactly once: the "Triggering
    renewal" lines it logged are those of the entries, in the order of the
    loop, and that order is a rearrangement of the set. *)
Theorem successful_run_triggers_every_entry (st st' : Proc W) (w1 w2 w3 w4 : W)
        (certs : list Certificate) (secrets : list Secret) :
  renew = true →
  apiutil_NewDynamicRESTMapper (world st) = (None, w1) →
  client_New w1 = (None, w2) →
  List_Certificates w2 = (inr certs, w3) →
  List_Secrets w3 = (inr secrets, w4) →
  run st = (Val None, st') →
  let m := serialsToCertificates (analyse (makeSecretsMap secrets) certs) in
  List.filter is_triggering (output st')
  = (List.filter is_triggering (output st) ++ (triggeringLine <$> map_range 150 m))%list
  ∧ map_range 150 m ≡ₚ map_to_list m.
Proof.
  intros Hr Hm Hc Hl1 Hl2 Hrun m. split; [|apply map_range_perm].
  destruct (decide (size m = 0%nat)) as [Hz|Hz].
  - rewrite (run_reports_only st w1 w2 w3 w4 certs secrets) in Hrun by auto.
    injection Hrun as <-.
    assert (map_range 150 m = []) as ->.
    { apply Permutation_nil_r. rewrite (map_range_perm _ 150 m).
      apply map_size_empty_iff in Hz. by rewrite Hz, map_to_list_empty. }
    unfold reportOnly. fold m. rewrite Hz. cbn [Nat.eqb output fmap list_fmap].
    rewrite !List.filter_app, analyse_triggering. cbn. by rewrite !app_nil_r.
  - rewrite (run_reaches_renewals st w1 w2 w3 w4 certs secrets) in Hrun by done.
    apply renewAll_triggering in Hrun. fold m in Hrun. rewrite Hrun. f_equal.
    unfold renewalStart. fold m. cbn [output].
    rewrite !List.filter_app, analyse_triggering, listCandidates_triggering.
    cbn. by rewrite !app_nil_r.
Qed.

Lemma main_runs (st : Proc W) :
  main st
  = match run (mainStart st) with
    | (Val (Some e), st') =>
        (Val 1, mkProc (world st') (calls st') (output st' ++ [LogFatal e]))
    | (Val None, st') => (Val 0, st')
    | (Panic msg, st') => (Panic msg, st')
    end.
Proof.
  unfold main, mainStart.
  destruct (decide (issuerName ≠ "")), renew;
    unfold bind, log, sleep, ret; cbn [world calls output];
    rewrite <- ?app_assoc; cbn [app];
    by destruct (run _) as [[[e|]|msg] st'].
Qed.

(** X13: the exit status of [main].  [main] never panics; it exits with 0
    when [run] returns no error and with 1 when [run] returns one, which is
    then the last line it logs.  [run] starts after the warnings and the
    banner are logged and, with [--renew], after the five-second delay,
    before which no client call is issued. *)
Theorem main_exit_status (st : Proc W) :
  calls (mainStart st) = calls st
  ∧ ∃ code st',
      main st = (Val code, st')
      ∧ ((code = 0 ∧ run (mainStart st) = (Val None, st'))
         ∨ (code = 1
            ∧ ∃ e st1, run (mainStart st) = (Val (Some e), st1)
                       ∧ world st' = world st1 ∧ calls st' = calls st1
                       ∧ output st' = (output st1 ++ [LogFatal e])%list)).
Proof.
  split; [done|]. rewrite main_runs.
  destruct (run_total (mainStart st)) as ([e|] & st' & ->).
  - eexists _, _. split; [reflexivity|]. right. split; [done|].
    by exists e, st'.
  - eexists _, _. split; [reflexivity|]. by left.
Qed.
End RunOutcome.

(** ** The further properties on concrete clusters *)

Section ConcreteFurther.
Import Fake.

Lemma makeSecretsMap_lookup_witness :
  makeSecretsMap [plain_tls; web_tls] !! "prod/web-tls" = Some web_tls.
Proof.
  destruct (makeSecretsMap_lookup [plain_tls; web_tls]) as (_ & _ & Hlast).
  apply (Hlast [plain_tls] web_tls []); [reflexivity|].
  intros s' Hs'. by apply elem_of_nil in Hs'.
Defined.

Lemma makeSecretsMap_distinct_keys_witness :
  size (makeSecretsMap [web_tls; api_tls; db_tls]) = 3%nat
  ∧ makeSecretsMap [db_tls; web_tls; api_tls] = makeSecretsMap [web_tls; api_tls; db_tls].
Proof.
  destruct (makeSecretsMap_distinct_keys [web_tls; api_tls; db_tls])
    as (_ & Hsize & Horder).
  - apply (bool_decide_unpack _). vm_compute. exact I.
  - split; [exact Hsize|]. apply Horder.
    apply (Permutation_cons_append [web_tls; api_tls] db_tls).
Defined.

Lemma analysis_accounting_witness :
  let sm := makeSecretsMap [web_tls; api_tls] in
  let a := @analyse library no_filter sm [web; api; db] in
  (skipped a + size (serialsToCertificates a))%nat = 3%nat.
Proof.
  intros sm a.
  destruct (@analysis_accounting library no_filter [web_tls; api_tls] [web; api; db])
    as (_ & _ & Hdistinct).
  apply Hdistinct. apply (bool_decide_unpack _). vm_compute. exact I.
Defined.

Lemma affected_entry_passes_filter_witness :
  ∃ secret,
    makeSecretsMap [web_tls; api_tls; db_tls] !! "prod/web-tls" = Some secret
    ∧ (go_lookup (sec_Annotations secret) IssuerNameAnnotationKey = None
       ∨ go_lookup (sec_Annotations secret) IssuerNameAnnotationKey
         = Some "letsencrypt-prod").
Proof.
  apply (@affected_entry_passes_filter library prod_filter
           [web_tls; api_tls; db_tls] [web; api; db] "7" web).
  - discriminate.
  - vm_compute. reflexivity.
Defined.

Lemma filter_order_independent_witness :
  let owner := ("owner", "platform") in
  let issuer := ("cert-manager.io/issuer-name", "other") in
  @filterAnnotations prod_filter [owner; issuer] false 0
  = @filterAnnotations prod_filter [issuer; owner] false 0
  ∧ (0 ≤ snd (@filterAnnotations prod_filter [owner; issuer] false 0) ≤ 1)%nat.
Proof.
  intros owner issuer.
  apply (@filter_order_independent prod_filter [owner; issuer] [issuer; owner]
                                   false 0%nat).
  - apply (bool_decide_unpack _). vm_compute. exact I.
  - apply (Permutation_cons_append [issuer] owner).
Defined.

Lemma await_request_listing_error_witness :
  let w := mkWorld [web] [web_tls] [] 0 [] 0 [2%nat] in
  ∃ e st',
    @awaitRequest World cluster library web (start w) = (Val (Some e), st')
    ∧ fst (@pollOnce World cluster web (@worldAfterPolls World cluster 2 web w)) = inl e
    ∧ calls st' = replicate 3 (CallListRequests "prod")
    ∧ last (output st') = Some (LogWaitFailed e).
Proof.
  intros w.
  apply (@await_request_listing_error World cluster library web (start w) 2%nat).
  - lia.
  - intros j Hj. do 2 (destruct j as [|j]; [vm_compute; reflexivity|]). lia.
  - vm_compute. reflexivity.
Defined.

Lemma client_construction_failure_witness :
  @run World (FakeBoot.cluster None (Some (Err "no route to host"))) library
       no_filter_renew (start cluster3)
  = (Val (Some (Errorf "error building API client" (Err "no route to host"))),
     start cluster3).
Proof.
  destruct (@client_construction_failure
              World (FakeBoot.cluster None (Some (Err "no route to host")))
              library no_filter_renew (start cluster3)) as [_ Hclient].
  apply (Hclient cluster3); reflexivity.
Defined.

Lemma nothing_affected_returns_early_witness :
  let w := idle [api] [web_tls] [] in
  @run World cluster library no_filter_renew (start w)
  = (Val None,
     @reportOnly World library no_filter_renew (start w) [api] [web_tls] (tick (tick w))).
Proof.
  intros w.
  assert (∀ crt, crt ∈ [api] →
                 @affectedKey library no_filter_renew (makeSecretsMap [web_tls]) crt = None)
    as Hnone.
  { intros crt Hcrt. apply list_elem_of_singleton in Hcrt as ->.
    vm_compute. reflexivity. }
  exact (proj1 (proj2 (proj2
    (@nothing_affected_returns_early World cluster library no_filter_renew
       (start w) w w (tick w) (tick (tick w)) [api] [web_tls]
       eq_refl eq_refl eq_refl eq_refl Hnone)))).
Defined.

Lemma successful_run_triggers_every_entry_witness :
  let w := mkWorld [web] [web_tls] [web_done] 0 [(5 * time_Second, web_pending)] 0 [] in
  List.filter is_triggering
    (output (snd (@run World cluster library no_filter_renew (start w))))
  = [LogTriggering "prod" "web"].
Proof.
  intros w.
  assert (@run World cluster library no_filter_renew (start w)
          = (Val None, snd (@run World cluster library no_filter_renew (start w))))
    as Hrun.
  { vm_compute. reflexivity. }
  rewrite (proj1
    (@successful_run_triggers_every_entry World cluster library no_filter_renew
       (start w) (snd (@run World cluster library no_filter_renew (start w)))
       w w (tick w) (tick (tick w)) [web] [web_tls]
       eq_refl eq_refl eq_refl eq_refl eq_refl Hrun)).
  vm_compute. reflexivity.
Defined.
End ConcreteFurther.
